(** * Synology download manager: directory browser and background loop

    A shallow embedding of [src/common/components/PathSelector.tsx] (the
    remote directory browser) and of the background script that follows it
    in the same source file (the context menu and the stored-state
    listener), with the properties of the specification that
    concern them.

    Conventions.
    - A JavaScript object used as a dictionary is a [gmap]; a [Set] is a
      [gset].
    - The per-path request counter is a JavaScript number that starts at 0
      and only ever grows by 1.  Such a number is an exact integer as long
      as it stays below 2^53, a number of requests no session reaches; it
      is modelled by [N].
    - Paths are the absolute paths the NAS reports (they start with a
      slash), so a path never names a property that an empty JavaScript
      object inherits.
    - [setState] is taken to change [this.state] at once.
    - An [async] function is cut at its [await]: the part before it runs
      when the function is called and leaves a request in flight, the part
      after it runs when the request resolves.
    - Calls to the platform (console, notifications, badge, timers) are
      recorded as a list of effects, in the order the code performs them. *)

From Stdlib Require Import ZArith NArith Ascii DecimalString DecimalNat.
From stdpp Require Import gmap strings list fin_maps.

#[local] Set Warnings "-register-all".
#[local] Open Scope string_scope.

(** ** The directory tree model *)

Module DirectoryTree.

(** The three states of a node's [children] field: the string
    ["unloaded"], an object carrying a [failureMessage], or an array of
    nodes. *)
Inductive DirectoryTreeFileChildren (A : Type) : Type :=
| Unloaded
| LoadingFailed (failureMessage : string)
| Loaded (files : list A).

Arguments Unloaded {A}.
Arguments LoadingFailed {A} failureMessage.
Arguments Loaded {A} files.

Inductive DirectoryTreeFile : Type :=
  mkFile {
    name : string;
    path : string;
    children : DirectoryTreeFileChildren DirectoryTreeFile
  }.

Abbreviation Children := (DirectoryTreeFileChildren DirectoryTreeFile).

(** Modelled from the spec: the predicates [isUnloadedChild],
    [isErrorChild] and [isLoadedChild] of [./DirectoryTree], which is not
    part of the sources at hand.  Section 4.1 makes them the three
    mutually exclusive, exhaustive tests on the variants. *)
Definition isUnloadedChild (c : Children) : bool :=
  match c with Unloaded => true | _ => false end.

Definition isErrorChild (c : Children) : bool :=
  match c with LoadingFailed _ => true | _ => false end.

Definition isLoadedChild (c : Children) : bool :=
  match c with Loaded _ => true | _ => false end.

(** Modelled from the spec: [recursivelyUpdateDirectoryTree] of
    [./DirectoryTree], which is not part of the sources at hand.
    Section 4.1: search the tree for the node whose path equals the
    target; replace that node's children; copy the ancestors; leave
    everything else, and a tree without the target, as it is. *)
Fixpoint recursivelyUpdateDirectoryTree
    (currentNode : DirectoryTreeFile) (target : string)
    (newChildren : Children) : DirectoryTreeFile :=
  match currentNode with
  | mkFile n p c =>
      if decide (p = target) then mkFile n p newChildren
      else
        match c with
        | Loaded files =>
            mkFile n p
              (Loaded (List.map
                 (fun f => recursivelyUpdateDirectoryTree f target newChildren)
                 files))
        | _ => currentNode
        end
  end.

(** The children of the first node, in depth-first order, whose path is
    [target]; [None] when the tree has no such node. *)
Fixpoint childrenAt (target : string) (node : DirectoryTreeFile)
    : option Children :=
  match node with
  | mkFile _ p c =>
      if decide (p = target) then Some c
      else
        match c with
        | Loaded files =>
            (fix first (l : list DirectoryTreeFile) : option Children :=
               match l with
               | [] => None
               | f :: l' =>
                   match childrenAt target f with
                   | Some r => Some r
                   | None => first l'
                   end
               end) files
        | _ => None
        end
  end.

End DirectoryTree.

(** ** The path selector component *)

Module PathSelector.
Import DirectoryTree.

Definition ROOT_PATH : string := "/".

(** The translators of [../apis/errors] and the type of connection
    failures of the API library: collaborators the component only calls. *)
Class ErrorMessages := {
  ConnectionFailure : Type;
  errorMessageFromConnectionFailure : ConnectionFailure → string;
  errorMessageFromCode : Z → string → string
}.

(** What a request to the API resolves to: a connection failure, a
    response with [success: false] and an error code, or a response with
    [success: true] and its data. *)
Inductive SynologyResponse `{ErrorMessages} (T : Type) : Type :=
| Failure (failure : ConnectionFailure)
| ErrorResponse (code : Z)
| SuccessResponse (data : T).

Arguments Failure {_ T} failure.
Arguments ErrorResponse {_ T} code.
Arguments SuccessResponse {_ T} data.

Record Share := { share_name : string; share_path : string }.
Record ListShareData := { shares : list Share }.
Record File := { file_name : string; file_path : string }.
Record ListData := { files : list File }.

Inductive ApiResponse `{ErrorMessages} : Type :=
| ListShareResponse (response : SynologyResponse ListShareData)
| ListResponse (response : SynologyResponse ListData).

(** An [ApiClient] instance is an object; only its identity matters to the
    component ([this.props.client !== nextProps.client]). *)
Definition ApiClient := nat.

(** A registration of the component's listener with a client's
    settings-change stream.  The function [onSettingsChange] returns
    stands for it: calling that function removes the registration. *)
Record Subscription := { sub_client : ApiClient; sub_token : nat }.

#[global] Instance Subscription_eq_dec : EqDecision Subscription.
Proof. solve_decision. Defined.

(** The two calls the component makes, with their arguments. *)
Inductive ApiCall :=
| list_share (client : ApiClient) (sort_by : string)
| list_ (client : ApiClient) (folder_path sort_by filetype : string).

(** A call in flight, with the version its caller stashed before the
    [await]. *)
Record Pending := { call : ApiCall; stashedRequestVersion : N }.

Definition pendingPath (p : Pending) : string :=
  match call p with
  | list_share _ _ => ROOT_PATH
  | list_ _ folder_path _ _ => folder_path
  end.

(** The fields of the component: [this.props.client], [this.state],
    [this.unsubscribeCallback] and [this.requestVersionByPath]. *)
Record Component := {
  props_client : ApiClient;
  directoryTree : DirectoryTreeFile;
  unsubscribeCallback : option Subscription;
  requestVersionByPath : gmap string N
}.

Definition setState (directoryTree' : DirectoryTreeFile) (c : Component)
    : Component :=
  {| props_client := props_client c;
     directoryTree := directoryTree';
     unsubscribeCallback := unsubscribeCallback c;
     requestVersionByPath := requestVersionByPath c |}.

Definition setRequestVersion (path : string) (v : N) (c : Component)
    : Component :=
  {| props_client := props_client c;
     directoryTree := directoryTree c;
     unsubscribeCallback := unsubscribeCallback c;
     requestVersionByPath := <[path := v]> (requestVersionByPath c) |}.

Definition setUnsubscribeCallback (cb : option Subscription) (c : Component)
    : Component :=
  {| props_client := props_client c;
     directoryTree := directoryTree c;
     unsubscribeCallback := cb;
     requestVersionByPath := requestVersionByPath c |}.

Definition setProps (client : ApiClient) (c : Component) : Component :=
  {| props_client := client;
     directoryTree := directoryTree c;
     unsubscribeCallback := unsubscribeCallback c;
     requestVersionByPath := requestVersionByPath c |}.

(** [this.requestVersionByPath[path] || 0] *)
Definition requestVersion (c : Component) (path : string) : N :=
  default 0%N (requestVersionByPath c !! path).

(** [stashedRequestVersion === this.requestVersionByPath[path]] *)
Definition isCurrent (c : Component) (path : string) (stashed : N) : bool :=
  bool_decide (requestVersionByPath c !! path = Some stashed).

Definition constructed (client : ApiClient) : Component :=
  {| props_client := client;
     directoryTree :=
       {| name := "/"; path := ROOT_PATH; children := Unloaded |};
     unsubscribeCallback := None;
     requestVersionByPath := ∅ |}.

Section Methods.
Context `{ErrorMessages}.

Definition updateTreeWithResponse {T : Type} (path : string)
    (response : SynologyResponse T)
    (parseChildren : T → list DirectoryTreeFile) (c : Component)
    : Component :=
  match response with
  | Failure failure =>
      setState
        (recursivelyUpdateDirectoryTree (directoryTree c) path
           (LoadingFailed (errorMessageFromConnectionFailure failure))) c
  | ErrorResponse code =>
      setState
        (recursivelyUpdateDirectoryTree (directoryTree c) path
           (LoadingFailed (errorMessageFromCode code "FileStation"))) c
  | SuccessResponse data =>
      setState
        (recursivelyUpdateDirectoryTree (directoryTree c) path
           (Loaded (parseChildren data))) c
  end.

(** What the part of an [async] method before its [await] leaves behind:
    the component, the calls it put in flight, the lines it logged. *)
Record Started := {
  after : Component;
  issued : list Pending;
  logged : list string
}.

Definition programmerError : string :=
  "programmer error: cannot load nested directories when top-level directories are not in a valid state".

(** [loadNestedDirectory], up to the [await]. *)
Definition loadNestedDirectory (path : string) (c : Component) : Started :=
  if negb (isLoadedChild (children (directoryTree c))) then
    {| after := c; issued := []; logged := [programmerError] |}
  else
    let stashed := (requestVersion c path + 1)%N in
    let c' := setRequestVersion path stashed c in
    {| after := c';
       issued := [ {| call := list_ (props_client c') path "name" "dir";
                      stashedRequestVersion := stashed |} ];
       logged := [] |}.

Definition parseFiles (data : ListData) : list DirectoryTreeFile :=
  List.map
    (fun f => {| path := file_path f; name := file_name f;
                 children := Unloaded |})
    (files data).

(** [loadNestedDirectory], from the [await] on. *)
Definition loadNestedDirectory_resume (path : string) (stashed : N)
    (response : SynologyResponse ListData) (c : Component) : Component :=
  if isCurrent c path stashed then
    updateTreeWithResponse path response parseFiles c
  else c.

(** [loadTopLevelDirectories], up to the [await]. *)
Definition loadTopLevelDirectories (c : Component) : Started :=
  let c1 :=
    setState
      (recursivelyUpdateDirectoryTree (directoryTree c) ROOT_PATH Unloaded) c in
  let stashed := (requestVersion c1 ROOT_PATH + 1)%N in
  let c2 := setRequestVersion ROOT_PATH stashed c1 in
  {| after := c2;
     issued := [ {| call := list_share (props_client c2) "name";
                    stashedRequestVersion := stashed |} ];
     logged := [] |}.

Definition parseShares (data : ListShareData) : list DirectoryTreeFile :=
  List.map
    (fun d => {| name := share_name d; path := share_path d;
                 children := Unloaded |})
    (shares data).

(** [loadTopLevelDirectories], from the [await] on. *)
Definition loadTopLevelDirectories_resume (stashed : N)
    (response : SynologyResponse ListShareData) (c : Component) : Component :=
  if isCurrent c ROOT_PATH stashed then
    updateTreeWithResponse ROOT_PATH response parseShares c
  else c.

(** *** The component in its environment

    The environment holds the registrations of the component's listener
    with the clients, the calls in flight and the console. *)
Record World := {
  component : Component;
  listeners : list Subscription;
  nextToken : nat;
  inFlight : list Pending;
  console : list string
}.

Definition withComponent (c : Component) (w : World) : World :=
  {| component := c; listeners := listeners w; nextToken := nextToken w;
     inFlight := inFlight w; console := console w |}.

Definition withListeners (l : list Subscription) (w : World) : World :=
  {| component := component w; listeners := l; nextToken := nextToken w;
     inFlight := inFlight w; console := console w |}.

Definition withInFlight (l : list Pending) (w : World) : World :=
  {| component := component w; listeners := listeners w;
     nextToken := nextToken w; inFlight := l; console := console w |}.

(** Modelled from the spec: the settings-change stream of the API client,
    a library outside this repository.  Sections 4.2 and 9: registering a
    listener returns the means to remove that registration. *)
Definition onSettingsChange (client : ApiClient) (w : World)
    : World * Subscription :=
  let s := {| sub_client := client; sub_token := nextToken w |} in
  ({| component := component w; listeners := listeners w ++ [s];
      nextToken := S (nextToken w); inFlight := inFlight w;
      console := console w |}, s).

(** Calling the function [onSettingsChange] returned. *)
Definition callUnsubscribe (s : Subscription) (w : World) : World :=
  withListeners (List.filter (fun s' => bool_decide (s' ≠ s)) (listeners w)) w.

Definition unsubscribeFromClient (w : World) : World :=
  match unsubscribeCallback (component w) with
  | Some s =>
      let w' := callUnsubscribe s w in
      withComponent (setUnsubscribeCallback None (component w')) w'
  | None => w
  end.

Definition subscribeToClient (client : ApiClient) (w : World) : World :=
  let w1 := unsubscribeFromClient w in
  let '(w2, s) := onSettingsChange client w1 in
  withComponent (setUnsubscribeCallback (Some s) (component w2)) w2.

(** Run the synchronous part of an [async] method in the world. *)
Definition start (m : Component → Started) (w : World) : World :=
  let r := m (component w) in
  {| component := after r; listeners := listeners w;
     nextToken := nextToken w; inFlight := inFlight w ++ issued r;
     console := console w ++ logged r |}.

Definition componentDidMount (w : World) : World :=
  let w1 := subscribeToClient (props_client (component w)) w in
  start loadTopLevelDirectories w1.

Definition componentWillUnmount (w : World) : World :=
  unsubscribeFromClient w.

(** The body of [componentWillReceiveProps]; [this.props] is still the
    previous props while it runs. *)
Definition componentWillReceiveProps (nextClient : ApiClient) (w : World)
    : World :=
  if bool_decide (props_client (component w) ≠ nextClient) then
    let w1 := unsubscribeFromClient w in
    let w2 := subscribeToClient (props_client (component w1)) w1 in
    start loadTopLevelDirectories w2
  else w.

(** A client tells its listeners that its settings changed: every
    registration of the component with that client calls
    [loadTopLevelDirectories]. *)
Definition notifySettingsChange (client : ApiClient) (w : World) : World :=
  foldl (fun w' _ => start loadTopLevelDirectories w') w
    (List.filter (fun s => bool_decide (sub_client s = client)) (listeners w)).

(** The continuation of a pending call, given the response. *)
Definition resume (p : Pending) (r : ApiResponse) (c : Component)
    : option Component :=
  match call p, r with
  | list_share _ _, ListShareResponse response =>
      Some (loadTopLevelDirectories_resume (stashedRequestVersion p) response c)
  | list_ _ folder_path _ _, ListResponse response =>
      Some (loadNestedDirectory_resume folder_path (stashedRequestVersion p)
              response c)
  | _, _ => None
  end.

Inductive Event :=
| DidMount
| WillUnmount
| ReceiveProps (nextClient : ApiClient)
| SettingsChange (client : ApiClient)
| RequestLoad (path : string)
| Resolve (i : nat) (response : ApiResponse).

(** One turn of the event loop.  React installs the next props once
    [componentWillReceiveProps] has returned.  A call in flight resolves
    once, with a response of its own kind. *)
Definition step (e : Event) (w : World) : option World :=
  match e with
  | DidMount => Some (componentDidMount w)
  | WillUnmount => Some (componentWillUnmount w)
  | ReceiveProps nextClient =>
      let w' := componentWillReceiveProps nextClient w in
      Some (withComponent (setProps nextClient (component w')) w')
  | SettingsChange client => Some (notifySettingsChange client w)
  | RequestLoad path => Some (start (loadNestedDirectory path) w)
  | Resolve i response =>
      p ← inFlight w !! i;
      c ← resume p response (component w);
      Some (withComponent c (withInFlight (delete i (inFlight w)) w))
  end.

Fixpoint run (es : list Event) (w : World) : option World :=
  match es with
  | [] => Some w
  | e :: es' => w' ← step e w; run es' w'
  end.

Definition initial (client : ApiClient) : World :=
  {| component := constructed client; listeners := []; nextToken := 0;
     inFlight := []; console := [] |}.

(** *** Vocabulary of the properties *)

(** The children a response stands for: a failure message or the parsed
    entries. *)
Definition resultChildren {T : Type}
    (parseChildren : T → list DirectoryTreeFile)
    (response : SynologyResponse T) : Children :=
  match response with
  | Failure failure =>
      LoadingFailed (errorMessageFromConnectionFailure failure)
  | ErrorResponse code =>
      LoadingFailed (errorMessageFromCode code "FileStation")
  | SuccessResponse data => Loaded (parseChildren data)
  end.

Definition responseChildren (r : ApiResponse) : Children :=
  match r with
  | ListShareResponse response => resultChildren parseShares response
  | ListResponse response => resultChildren parseFiles response
  end.

(** In the history [es] of a component constructed with [client], the
    call [old] was in flight when a later event put a new call for the
    same path in flight. *)
Definition Superseded (client : ApiClient) (es : list Event) (old : Pending)
    : Prop :=
  ∃ es1 e es2 w1 w2 newer,
    es = (es1 ++ e :: es2)%list ∧
    run es1 (initial client) = Some w1 ∧
    old ∈ inFlight w1 ∧
    step e w1 = Some w2 ∧
    newer ∈ inFlight w2 ∧ (newer ∉ inFlight w1) ∧
    pendingPath newer = pendingPath old.

(** Every call in flight carries a version its path has reached. *)
Definition Versioned (w : World) : Prop :=
  ∀ q, q ∈ inFlight w →
    (stashedRequestVersion q ≤ requestVersion (component w) (pendingPath q))%N.

(** From [w] to [w'] no version went down, and every call in flight that
    is new carries a version above the one its path had. *)
Definition Extends (w w' : World) : Prop :=
  (∀ p, (requestVersion (component w) p ≤ requestVersion (component w') p)%N)
  ∧ ∀ q, q ∈ inFlight w' →
      q ∈ inFlight w
      ∨ (requestVersion (component w) (pendingPath q) < stashedRequestVersion q
         ≤ requestVersion (component w') (pendingPath q))%N.

(** A method only raises versions, and stashes a raised one with every
    call it puts in flight. *)
Definition Raising (m : Component → Started) : Prop :=
  ∀ c,
    (∀ p, (requestVersion c p ≤ requestVersion (after (m c)) p)%N)
    ∧ ∀ q, q ∈ issued (m c) →
        (requestVersion c (pendingPath q) < stashedRequestVersion q
         ≤ requestVersion (after (m c)) (pendingPath q))%N.

(** The registrations of the component are exactly the one it holds the
    means to remove, if any. *)
Definition SingleSubscription (w : World) : Prop :=
  listeners w =
    match unsubscribeCallback (component w) with
    | Some s => [s]
    | None => []
    end.

End Methods.

End PathSelector.

(** ** The background script *)

Module Background.

(** *** Text handled character by character

    The context-menu handler splits and trims the selected text, so that
    text is kept as JavaScript has it: a sequence of UTF-16 code units. *)
Definition JsString := list N.

Definition fromAscii (s : string) : JsString :=
  List.map N_of_ascii (String.list_ascii_of_string s).

Definition LF : N := 10.

(** [s.split("\n")]: the pieces between line feeds; never empty. *)
Fixpoint split (s : JsString) : list JsString :=
  match s with
  | [] => [[]]
  | c :: s' =>
      if (c =? LF)%N then [] :: split s'
      else
        match split s' with
        | line :: lines => (c :: line) :: lines
        | [] => [[c]]
        end
  end.

(** The code units [trim] removes: ECMAScript's WhiteSpace and
    LineTerminator. *)
Definition isWhiteSpace (c : N) : bool :=
  bool_decide (c ∈ [0x9; 0xA; 0xB; 0xC; 0xD; 0x20; 0xA0; 0x1680;
                    0x2000; 0x2001; 0x2002; 0x2003; 0x2004; 0x2005; 0x2006;
                    0x2007; 0x2008; 0x2009; 0x200A;
                    0x2028; 0x2029; 0x202F; 0x205F; 0x3000; 0xFEFF]%N).

Fixpoint trimStart (s : JsString) : JsString :=
  match s with
  | c :: s' => if isWhiteSpace c then trimStart s' else s
  | [] => []
  end.

Definition trimEnd (s : JsString) : JsString := rev (trimStart (rev s)).

Definition trim (s : JsString) : JsString := trimEnd (trimStart s).

(** [s.startsWith(prefix)] *)
Fixpoint startsWith (s prefix : JsString) : bool :=
  match prefix, s with
  | [], _ => true
  | p :: prefix', c :: s' => (c =? p)%N && startsWith s' prefix'
  | _ :: _, [] => false
  end.

(** *** Collaborators

    One class for each module or platform object the script only calls. *)

(** [browser.i18n] *)
Class I18n := { getMessage : string → string }.

(** [../common/apis/protocols] *)
Class Protocols := {
  ALL_DOWNLOADABLE_PROTOCOLS : list JsString;
  startsWithAnyProtocol : JsString → list JsString → bool
}.

(** [const START_TIME = Date.now()] *)
Class Clock := { START_TIME : Z }.

Record Task := { id : string; title : string; status : string }.

(** [../common/state] and [../common/filtering]: the connection settings
    with the accessors the script uses, and the task filter. *)
Class StateModule := {
  ConnectionSettings : Type;
  username : ConnectionSettings → string;
  password : ConnectionSettings → string;
  getHostUrl : ConnectionSettings → option string;
  VisibleTaskSettings : Type;
  filterTasks : list Task → VisibleTaskSettings → list Task
}.

(** Modelled from the spec: the shape of the stored state, declared in
    [../common/state], which is not part of the sources at hand; the
    fields are those the script reads.  Section 3 gives a task its id,
    title and status; section 4.3 gives the display mode its two values
    and the failure reason, which is absent ([null]) or present. *)
Record NotificationSettings := {
  enableFeedbackNotifications : bool;
  enableCompletionNotifications : bool;
  completionPollingInterval : Z
}.

#[global] Instance NotificationSettings_eq_dec : EqDecision NotificationSettings.
Proof. solve_decision. Defined.

Inductive BadgeDisplayType := total | filtered.

Inductive TaskFetchFailureReason :=
| missing_config
| failureMessage (message : string).

Record Settings `{StateModule} := {
  connection : ConnectionSettings;
  visibleTasks : VisibleTaskSettings;
  notifications : NotificationSettings;
  badgeDisplayType : BadgeDisplayType
}.

Record StoredState `{StateModule} := {
  settings : Settings;
  tasks : list Task;
  taskFetchFailureReason : option TaskFetchFailureReason;
  tasksLastCompletedFetchTimestamp : option Z
}.

(** Modelled from the spec: the configuration of the API client, a
    library outside this repository.  Section 4.3: the client is
    reconfigured in place and tells whether its configuration changed;
    the script creates it with an empty configuration. *)
Inductive SessionName := DownloadStation | FileStation.

Record ApiClientSettings := {
  baseUrl : option string;
  account : option string;
  passwd : option string;
  session : option SessionName
}.

#[global] Instance SessionName_eq_dec : EqDecision SessionName.
Proof. solve_decision. Defined.

#[global] Instance ApiClientSettings_eq_dec : EqDecision ApiClientSettings.
Proof. solve_decision. Defined.

Definition emptySettings : ApiClientSettings :=
  {| baseUrl := None; account := None; passwd := None; session := None |}.

(** [api.updateSettings(settings)]: the configuration afterwards, and
    whether it changed. *)
Definition updateSettings (new current : ApiClientSettings)
    : ApiClientSettings * bool :=
  if bool_decide (new ≠ current) then (new, true) else (current, false).

(** The payload of a context-menu click. *)
Record OnClickData := {
  linkUrl : option JsString;
  srcUrl : option JsString;
  selectionText : option JsString
}.

(** The truth value of an optional string: present and not empty. *)
Definition truthy (s : option JsString) : bool :=
  match s with
  | Some (_ :: _) => true
  | _ => false
  end.

(** The calls the script makes to the platform and to the action
    module, in the order it makes them.  [addDownloadTasksAndPoll] is the
    one that sends URLs to the NAS.  [clearCachedTasks thenPollTasks]
    starts the invalidation of the cached tasks; when [thenPollTasks]
    holds, [pollTasks(api)] is chained on its completion.  [setInterval]
    starts the timer that polls the tasks and names the handle the
    platform returns for it. *)
Inductive Effect :=
| addDownloadTasksAndPoll (showNonErrorNotifications : bool)
    (urls : list JsString)
| notify (title message : string) (kind : option string)
| clearCachedTasks (thenPollTasks : bool)
| clearInterval (timer : option nat)
| setInterval (timer : nat) (milliseconds : Z)
| setIcon (path : list (string * string))
| setBadgeText (text : string)
| setBadgeBackgroundColor (color : list Z).

(** The module-level variables of the script, the configuration held by
    [api], and the next timer handle the platform hands out. *)
Record Script := {
  apiSettings : ApiClientSettings;
  finishedTaskIds : option (gset string);
  lastNotificationSettings : option NotificationSettings;
  notificationInterval : option nat;
  didInitializeSettings : bool;
  showNonErrorNotifications : bool;
  nextTimer : nat
}.

Definition started : Script :=
  {| apiSettings := emptySettings;
     finishedTaskIds := None;
     lastNotificationSettings := None;
     notificationInterval := None;
     didInitializeSettings := false;
     showNonErrorNotifications := true;
     nextTimer := 0 |}.

Section Script.
Context `{I18n} `{Protocols} `{Clock} `{StateModule}.

(** *** The context menu *)

Definition selectedUrls (selection : JsString) : list JsString :=
  List.filter
    (fun url => startsWithAnyProtocol url ALL_DOWNLOADABLE_PROTOCOLS)
    (List.map trim (split selection)).

Definition onclick (data : OnClickData) (b : Script) : list Effect :=
  if truthy (linkUrl data) then
    [addDownloadTasksAndPoll (showNonErrorNotifications b)
       [default [] (linkUrl data)]]
  else if truthy (srcUrl data) then
    [addDownloadTasksAndPoll (showNonErrorNotifications b)
       [default [] (srcUrl data)]]
  else if truthy (selectionText data) then
    let urls := selectedUrls (default [] (selectionText data)) in
    if bool_decide (length urls = 0) then
      [notify (getMessage "Failed_to_add_download")
         (getMessage "Selected_text_is_not_a_valid_URL") (Some "failure")]
    else [addDownloadTasksAndPoll (showNonErrorNotifications b) urls]
  else
    [notify (getMessage "Failed_to_add_download")
       (getMessage "URL_is_empty_or_missing") (Some "failure")].

(** *** The stored-state listener, block by block *)

Definition requestedSettings (s : StoredState) : ApiClientSettings :=
  {| baseUrl := getHostUrl (connection (settings s));
     account := Some (username (connection (settings s)));
     passwd := Some (password (connection (settings s)));
     session := Some DownloadStation |}.

Definition reconfigure (s : StoredState) (b : Script)
    : Script * list Effect :=
  let '(applied, didUpdateSettings) :=
    updateSettings (requestedSettings s) (apiSettings b) in
  if didUpdateSettings then
    ({| apiSettings := applied;
        finishedTaskIds := finishedTaskIds b;
        lastNotificationSettings := lastNotificationSettings b;
        notificationInterval := notificationInterval b;
        didInitializeSettings := true;
        showNonErrorNotifications := showNonErrorNotifications b;
        nextTimer := nextTimer b |},
     [clearCachedTasks (didInitializeSettings b)])
  else
    ({| apiSettings := applied;
        finishedTaskIds := finishedTaskIds b;
        lastNotificationSettings := lastNotificationSettings b;
        notificationInterval := notificationInterval b;
        didInitializeSettings := didInitializeSettings b;
        showNonErrorNotifications := showNonErrorNotifications b;
        nextTimer := nextTimer b |},
     []).

Definition resetInterval (s : StoredState) (b : Script)
    : Script * list Effect :=
  if bool_decide (Some (notifications (settings s)) ≠ lastNotificationSettings b)
  then
    let last := notifications (settings s) in
    if enableCompletionNotifications last then
      ({| apiSettings := apiSettings b;
          finishedTaskIds := finishedTaskIds b;
          lastNotificationSettings := Some last;
          notificationInterval := Some (nextTimer b);
          didInitializeSettings := didInitializeSettings b;
          showNonErrorNotifications := showNonErrorNotifications b;
          nextTimer := S (nextTimer b) |},
       [clearInterval (notificationInterval b);
        setInterval (nextTimer b) (completionPollingInterval last * 1000)])
    else
      ({| apiSettings := apiSettings b;
          finishedTaskIds := finishedTaskIds b;
          lastNotificationSettings := Some last;
          notificationInterval := notificationInterval b;
          didInitializeSettings := didInitializeSettings b;
          showNonErrorNotifications := showNonErrorNotifications b;
          nextTimer := nextTimer b |},
       [clearInterval (notificationInterval b)])
  else (b, []).

Definition cacheFeedbackFlag (s : StoredState) (b : Script) : Script :=
  {| apiSettings := apiSettings b;
     finishedTaskIds := finishedTaskIds b;
     lastNotificationSettings := lastNotificationSettings b;
     notificationInterval := notificationInterval b;
     didInitializeSettings := didInitializeSettings b;
     showNonErrorNotifications :=
       enableFeedbackNotifications (notifications (settings s));
     nextTimer := nextTimer b |}.

Definition disabledIcon : list (string * string) :=
  [("16", "icons/icon-16-disabled.png"); ("32", "icons/icon-32-disabled.png");
   ("64", "icons/icon-64-disabled.png");
   ("128", "icons/icon-128-disabled.png");
   ("256", "icons/icon-256-disabled.png")].

Definition normalIcon : list (string * string) :=
  [("16", "icons/icon-16.png"); ("32", "icons/icon-32.png");
   ("64", "icons/icon-64.png"); ("128", "icons/icon-128.png");
   ("256", "icons/icon-256.png")].

(** [n.toString()] for a count. *)
Definition toString (n : nat) : string :=
  NilZero.string_of_uint (Nat.to_uint n).

Definition taskCount (s : StoredState) : nat :=
  match badgeDisplayType (settings s) with
  | total => length (tasks s)
  | filtered => length (filterTasks (tasks s) (visibleTasks (settings s)))
  end.

(** The badge and icon block.  The display mode has two values, so the
    [assertNever] branch of the source, with its early [return], has no
    counterpart. *)
Definition updateBadge (s : StoredState) : list Effect :=
  match taskFetchFailureReason s with
  | Some _ =>
      [setIcon disabledIcon; setBadgeText "";
       setBadgeBackgroundColor [217; 0; 0; 255]%Z]
  | None =>
      [setIcon normalIcon;
       setBadgeText
         (if bool_decide (taskCount s = 0) then "" else toString (taskCount s));
       setBadgeBackgroundColor [0; 217; 0; 255]%Z]
  end.

(** The guard of the completion block. *)
Definition fetchedSinceStart (s : StoredState) : bool :=
  match tasksLastCompletedFetchTimestamp s with
  | Some t => bool_decide (START_TIME < t)%Z
  | None => false
  end
  && bool_decide (taskFetchFailureReason s = None).

Definition isFinished (t : Task) : bool :=
  String.eqb (status t) "finished" || String.eqb (status t) "seeding".

Definition updatedFinishedTaskIds (s : StoredState) : list string :=
  List.map id (List.filter isFinished (tasks s)).

(** [storedState.tasks.find((t) => t.id === id)!.title]; every id asked
    for comes from [storedState.tasks], so the task is found. *)
Definition titleOf (s : StoredState) (i : string) : string :=
  match List.find (fun t => String.eqb (id t) i) (tasks s) with
  | Some task => title task
  | None => ""
  end.

(** The ids the completion block notifies about, given the stored set. *)
Definition newlyFinished (s : StoredState) (prior : gset string)
    : list string :=
  List.filter (fun i => negb (bool_decide (i ∈ prior)))
    (updatedFinishedTaskIds s).

Definition completionNotifications (s : StoredState) (b : Script)
    : list Effect :=
  match finishedTaskIds b with
  | Some prior =>
      if enableCompletionNotifications (notifications (settings s)) then
        List.map
          (fun i => notify (titleOf s i) (getMessage "Download_finished") None)
          (newlyFinished s prior)
      else []
  | None => []
  end.

Definition detectCompletions (s : StoredState) (b : Script)
    : Script * list Effect :=
  if fetchedSinceStart s then
    ({| apiSettings := apiSettings b;
        finishedTaskIds := Some (list_to_set (updatedFinishedTaskIds s));
        lastNotificationSettings := lastNotificationSettings b;
        notificationInterval := notificationInterval b;
        didInitializeSettings := didInitializeSettings b;
        showNonErrorNotifications := showNonErrorNotifications b;
        nextTimer := nextTimer b |},
     completionNotifications s b)
  else (b, []).

(** The listener passed to [onStoredStateChange]. *)
Definition listener (s : StoredState) (b : Script) : Script * list Effect :=
  let '(b1, e1) := reconfigure s b in
  let '(b2, e2) := resetInterval s b1 in
  let b3 := cacheFeedbackFlag s b2 in
  let e3 := updateBadge s in
  let '(b4, e4) := detectCompletions s b3 in
  (b4, (e1 ++ e2 ++ e3 ++ e4)%list).

(** The listener run on the snapshots the store emits, one after the
    other; the effects of each snapshot are kept apart. *)
Fixpoint listen (snapshots : list StoredState) (b : Script)
    : Script * list (list Effect) :=
  match snapshots with
  | [] => (b, [])
  | s :: rest =>
      let '(b', e) := listener s b in
      let '(b'', es) := listen rest b' in
      (b'', e :: es)
  end.

(** *** Vocabulary of the properties *)

(** The notifications among some effects, as title and message. *)
Definition notified (effects : list Effect) : list (string * string) :=
  flat_map
    (fun e =>
       match e with
       | notify t m _ => [(t, m)]
       | _ => []
       end)
    effects.

(** The calls to the browser action among some effects. *)
Definition isBadgeEffect (e : Effect) : bool :=
  match e with
  | setIcon _ | setBadgeText _ | setBadgeBackgroundColor _ => true
  | _ => false
  end.

(** The cache invalidations among some effects. *)
Definition isCacheEffect (e : Effect) : bool :=
  match e with
  | clearCachedTasks _ => true
  | _ => false
  end.

(** [lines.join("\n")] *)
Fixpoint join (lines : list JsString) : JsString :=
  match lines with
  | [] => []
  | [line] => line
  | line :: rest => (line ++ LF :: join rest)%list
  end.

End Script.

End Background.

(** ** Concrete collaborators, for the examples *)

Module Samples.
Import DirectoryTree.

#[export] Instance errorMessages : PathSelector.ErrorMessages := {|
  PathSelector.ConnectionFailure := string;
  PathSelector.errorMessageFromConnectionFailure :=
    fun failure => "Connection failure: " +:+ failure;
  PathSelector.errorMessageFromCode :=
    fun code group => group +:+ ": request failed"
|}.

#[export] Instance i18n : Background.I18n := {|
  Background.getMessage := fun key => key
|}.

(** Modelled from the spec: [startsWithAnyProtocol] and the protocol
    table of [../common/apis/protocols], which is not part of the sources
    at hand.  Section 4.4 keeps the strings "that start with a recognized
    downloadable protocol scheme"; section 8 tests it with the protocols
    http and ftp. *)
#[export] Instance protocols : Background.Protocols := {|
  Background.ALL_DOWNLOADABLE_PROTOCOLS :=
    [Background.fromAscii "http"; Background.fromAscii "ftp"];
  Background.startsWithAnyProtocol :=
    fun url protocols => existsb (Background.startsWith url) protocols
|}.

#[export] Instance clock : Background.Clock := {|
  Background.START_TIME := 1000
|}.

Record Connection := { host : option string; user : string; pass : string }.

#[export] Instance stateModule : Background.StateModule := {|
  Background.ConnectionSettings := Connection;
  Background.username := user;
  Background.password := pass;
  Background.getHostUrl := host;
  Background.VisibleTaskSettings := list string;
  Background.filterTasks :=
    fun tasks visible =>
      List.filter
        (fun t => bool_decide (Background.status t ∈ visible)) tasks
|}.

Section PathSelectorSamples.
Import PathSelector.

Definition twoShares : ListShareData :=
  {| shares := [ {| share_name := "video"; share_path := "/video" |};
                 {| share_name := "music"; share_path := "/music" |} ] |}.

(** The world once the component is mounted and the listing of the root
    has resolved with two shares. *)
Definition browsing : World :=
  {| component :=
       {| props_client := 1;
          directoryTree :=
            mkFile "/" "/"
              (Loaded [mkFile "video" "/video" Unloaded;
                       mkFile "music" "/music" Unloaded]);
          unsubscribeCallback := Some {| sub_client := 1; sub_token := 0 |};
          requestVersionByPath := {[ "/" := 1%N ]} |};
     listeners := [ {| sub_client := 1; sub_token := 0 |} ];
     nextToken := 1; inFlight := []; console := [] |}.


End PathSelectorSamples.

Section BackgroundSamples.
Import Background.

Definition sampleSettings : Settings :=
  {| connection :=
       {| host := Some "https://nas:5001"; user := "admin"; pass := "secret" |};
     visibleTasks := ["downloading"];
     notifications :=
       {| enableFeedbackNotifications := true;
          enableCompletionNotifications := true;
          completionPollingInterval := 60 |};
     badgeDisplayType := total |}.

Definition taskA : Task := {| id := "A"; title := "a.iso"; status := "finished" |}.
Definition taskB : Task := {| id := "B"; title := "b.iso"; status := "seeding" |}.
Definition taskC : Task := {| id := "C"; title := "c.iso"; status := "finished" |}.
Definition taskD : Task := {| id := "D"; title := "d.iso"; status := "downloading" |}.
Definition taskE : Task := {| id := "E"; title := "e.iso"; status := "paused" |}.

(** A snapshot fetched after the start, without failure. *)
Definition fetched (tasks : list Task) : StoredState :=
  {| settings := sampleSettings; tasks := tasks;
     taskFetchFailureReason := None;
     tasksLastCompletedFetchTimestamp := Some 2000%Z |}.

(** The snapshot the store emits before any fetch. *)
Definition unfetched : StoredState :=
  {| settings := sampleSettings; tasks := [];
     taskFetchFailureReason := None;
     tasksLastCompletedFetchTimestamp := None |}.

(** A snapshot whose fetch failed. *)
Definition failed (tasks : list Task) : StoredState :=
  {| settings := sampleSettings; tasks := tasks;
     taskFetchFailureReason := Some (failureMessage "timeout");
     tasksLastCompletedFetchTimestamp := Some 2000%Z |}.

(** The script once it has seen A and B finished. *)
Definition seenAB : Script :=
  {| apiSettings := requestedSettings (fetched [taskA; taskB]);
     finishedTaskIds := Some {[ "A"; "B" ]};
     lastNotificationSettings := Some (notifications sampleSettings);
     notificationInterval := Some 0;
     didInitializeSettings := true;
     showNonErrorNotifications := true;
     nextTimer := 1 |}.

(** The selection of section 8: two URLs around a line that is none. *)
Definition selection : JsString :=
  (fromAscii "http://a" ++ LF :: fromAscii " not-a-url" ++ LF
   :: fromAscii "ftp://b")%list.

Definition selected (text : JsString) : OnClickData :=
  {| linkUrl := None; srcUrl := None; selectionText := Some text |}.

(** A click on a link whose URL has spaces around it and names no
    downloadable protocol. *)
Definition linked : OnClickData :=
  {| linkUrl := Some (fromAscii " gopher://x ");
     srcUrl := Some (fromAscii "http://media");
     selectionText := Some selection |}.

Definition onVideo : OnClickData :=
  {| linkUrl := None; srcUrl := Some (fromAscii "http://media");
     selectionText := None |}.

Definition onNothing : OnClickData :=
  {| linkUrl := None; srcUrl := None; selectionText := None |}.

(** The first snapshot again, with another password and nothing else
    changed. *)
Definition rekeyed : StoredState :=
  {| settings :=
       {| connection :=
            {| host := Some "https://nas:5001"; user := "admin";
               pass := "changed" |};
          visibleTasks := ["downloading"];
          notifications := notifications sampleSettings;
          badgeDisplayType := total |};
     tasks := [];
     taskFetchFailureReason := None;
     tasksLastCompletedFetchTimestamp := None |}.

(** The first snapshot again, under another user name. *)
Definition renamed : StoredState :=
  {| settings :=
       {| connection :=
            {| host := Some "https://nas:5001"; user := "guest";
               pass := "secret" |};
          visibleTasks := ["downloading"];
          notifications := notifications sampleSettings;
          badgeDisplayType := total |};
     tasks := [];
     taskFetchFailureReason := None;
     tasksLastCompletedFetchTimestamp := None |}.

(** A snapshot in which the NAS has moved to another host. *)
Definition moved : StoredState :=
  {| settings :=
       {| connection :=
            {| host := Some "https://nas2:5001"; user := "admin";
               pass := "secret" |};
          visibleTasks := ["downloading"];
          notifications := notifications sampleSettings;
          badgeDisplayType := filtered |};
     tasks := [taskD; taskE];
     taskFetchFailureReason := None;
     tasksLastCompletedFetchTimestamp := None |}.

End BackgroundSamples.

End Samples.

(** ** What the path selector shows *)

Module PathSelectorView.
Import DirectoryTree PathSelector.

(** One [DirectoryTree] element of the rendered list.  Its [requestLoad]
    is [loadNestedDirectory] and its [onSelect] is [props.onSelectPath],
    the same for every row. *)
Record Row := {
  key : string;
  file : DirectoryTreeFile;
  selectedPath : option string
}.

Inductive Content :=
| NoContent (text : string)
| NoContentError (failureMessage : string)
| Rows (rows : list Row).

Section View.
Context `{Background.I18n}.

(** [renderContent]: the tests [isUnloadedChild] and [isErrorChild] and
    the test on the length are the cases of the match. *)
Definition renderContent (selected : option string) (c : Component)
    : Content :=
  match children (directoryTree c) with
  | Unloaded => NoContent (Background.getMessage "Loading_directories")
  | LoadingFailed failureMessage => NoContentError failureMessage
  | Loaded [] => NoContent (Background.getMessage "No_directories")
  | Loaded directories =>
      Rows
        (List.map
           (fun directory =>
              {| key := path directory; file := directory;
                 selectedPath := selected |})
           directories)
  end.

End View.

(** *** Vocabulary of the properties *)

(** Calls for one path stand in the order of their versions. *)
Fixpoint Ordered (calls : list Pending) : Prop :=
  match calls with
  | [] => True
  | p :: rest =>
      (∀ q, q ∈ rest → pendingPath q = pendingPath p →
         (stashedRequestVersion p < stashedRequestVersion q)%N)
      ∧ Ordered rest
  end.

(** The root of the tree is the node the component was constructed
    with. *)
Definition Rooted (w : World) : Prop :=
  path (directoryTree (component w)) = ROOT_PATH
  ∧ name (directoryTree (component w)) = "/".

End PathSelectorView.

(** ** The message handlers of the background script *)

Module MessageHandlers.
Import PathSelector.

(** ["success" | { failMessage }] *)
Inductive CallbackResponse :=
| success
| failMessage (message : string).

(** The messages of [MESSAGE_HANDLERS], by [type]. *)
Inductive Message :=
| add_tasks (urls : list string) (path : option string)
| poll_tasks
| pause_task (taskId : string)
| resume_task (taskId : string)
| delete_tasks (taskIds : list string).

(** The calls to [api.DownloadStation.Task] a handler awaits. *)
Inductive TaskRequest :=
| Pause (id : list string)
| Resume (id : list string)
| Delete (id : list string) (force_complete : bool).

(** The calls to [../common/apis/actions]. *)
Inductive Action :=
| addDownloadTasksAndPoll (showNonErrorNotifications : bool)
    (urls : list string) (path : option string)
| pollTasks.

(** A handler up to its first [await]: it returns what an action
    returns, or it waits for a request to the NAS. *)
Inductive Handling :=
| Returns (action : Action)
| Awaits (request : TaskRequest).

Section Handlers.
Context `{ErrorMessages}.

Definition callbackResponseFrom {T : Type} (response : SynologyResponse T)
    : CallbackResponse :=
  match response with
  | Failure failure =>
      failMessage (errorMessageFromConnectionFailure failure)
  | ErrorResponse code =>
      failMessage (errorMessageFromCode code "DownloadStation.Task")
  | SuccessResponse _ => success
  end.

Definition handle (b : Background.Script) (m : Message) : Handling :=
  match m with
  | add_tasks urls path =>
      Returns
        (addDownloadTasksAndPoll (Background.showNonErrorNotifications b)
           urls path)
  | poll_tasks => Returns pollTasks
  | pause_task taskId => Awaits (Pause [taskId])
  | resume_task taskId => Awaits (Resume [taskId])
  | delete_tasks taskIds => Awaits (Delete taskIds false)
  end.

(** A handler from the response of its request on: what it returns and
    the actions it awaits before returning. *)
Definition handle_resume {T : Type} (m : Message)
    (response : SynologyResponse T)
    : option (CallbackResponse * list Action) :=
  match m with
  | pause_task _ =>
      let response := callbackResponseFrom response in
      Some (response,
            match response with success => [pollTasks] | _ => [] end)
  | resume_task _ =>
      let response := callbackResponseFrom response in
      Some (response,
            match response with success => [pollTasks] | _ => [] end)
  | delete_tasks _ =>
      let response := callbackResponseFrom response in
      Some (response,
            match response with success => [pollTasks] | _ => [] end)
  | _ => None
  end.

End Handlers.

End MessageHandlers.

(** ** The polling timer of the background script *)

Module PollingTimer.
Import Background.

(** The timers alive at the platform, each with its period: what
    [setInterval] and [clearInterval] do to them.  Clearing a handle
    that is not alive, or [undefined], does nothing. *)
Definition applyTimer (live : gmap nat Z) (e : Effect) : gmap nat Z :=
  match e with
  | clearInterval (Some timer) => delete timer live
  | setInterval timer milliseconds => <[timer := milliseconds]> live
  | _ => live
  end.

Definition timersAfter (effects : list Effect) (live : gmap nat Z)
    : gmap nat Z :=
  foldl applyTimer live effects.

(** The timer alive is the one the settings last applied ask for. *)
Definition TimerKept (b : Script) (live : gmap nat Z) : Prop :=
  match lastNotificationSettings b with
  | Some n =>
      if enableCompletionNotifications n then
        ∃ timer, notificationInterval b = Some timer
          ∧ live = {[ timer := (completionPollingInterval n * 1000)%Z ]}
      else live = ∅
  | None => live = ∅
  end.

Section Settled.
Context `{Clock} `{StateModule}.

(** The script has taken everything the snapshot [s] has to give. *)
Definition Settled (s : StoredState) (b : Script) : Prop :=
  apiSettings b = requestedSettings s
  ∧ lastNotificationSettings b = Some (notifications (settings s))
  ∧ showNonErrorNotifications b
    = enableFeedbackNotifications (notifications (settings s))
  ∧ (fetchedSinceStart s = true →
     finishedTaskIds b = Some (list_to_set (updatedFinishedTaskIds s))).

End Settled.

End PollingTimer.

(** ** More concrete inputs *)

Module Scenarios.
Import DirectoryTree PathSelector Background Samples.

(** The same tasks as seen by [Samples.seenAB], with completion
    notifications switched off. *)
Definition quiet (tasks : list Task) : StoredState :=
  {| settings :=
       {| connection := connection sampleSettings;
          visibleTasks := visibleTasks sampleSettings;
          notifications :=
            {| enableFeedbackNotifications := false;
               enableCompletionNotifications := false;
               completionPollingInterval := 60 |};
          badgeDisplayType := total |};
     tasks := tasks;
     taskFetchFailureReason := None;
     tasksLastCompletedFetchTimestamp := Some 2000%Z |}.

Definition hurried (tasks : list Task) : StoredState :=
  {| settings :=
       {| connection := connection sampleSettings;
          visibleTasks := visibleTasks sampleSettings;
          notifications :=
            {| enableFeedbackNotifications := true;
               enableCompletionNotifications := true;
               completionPollingInterval := 5 |};
          badgeDisplayType := total |};
     tasks := tasks;
     taskFetchFailureReason := None;
     tasksLastCompletedFetchTimestamp := Some 3000%Z |}.

End Scenarios.

(** * Properties *)

(** ** The directory tree model *)

Module DirectoryTreeFacts.
Import DirectoryTree.

(** Structural induction that reaches the nodes below a [Loaded] list. *)
Lemma DirectoryTreeFile_ind' (P : DirectoryTreeFile → Prop) :
  (∀ n p, P (mkFile n p Unloaded)) →
  (∀ n p msg, P (mkFile n p (LoadingFailed msg))) →
  (∀ n p files, Forall P files → P (mkFile n p (Loaded files))) →
  ∀ t, P t.
Proof.
  intros HU HF HL.
  fix IH 1. intros [n p [|msg|files]].
  - apply HU.
  - apply HF.
  - apply HL. induction files as [|f files IHfiles]; constructor.
    + apply IH.
    + apply IHfiles.
Qed.

(** The three predicates are exclusive and exhaustive. *)
Lemma child_state_cases (c : Children) :
  (isUnloadedChild c = true ∧ isErrorChild c = false ∧ isLoadedChild c = false)
  ∨ (isUnloadedChild c = false ∧ isErrorChild c = true ∧ isLoadedChild c = false)
  ∨ (isUnloadedChild c = false ∧ isErrorChild c = false ∧ isLoadedChild c = true).
Proof. destruct c; simpl; auto. Qed.

(** A tree without the target path is returned as it is. *)
Lemma update_absent target newChildren t :
  childrenAt target t = None →
  recursivelyUpdateDirectoryTree t target newChildren = t.
Proof.
  induction t as [n p|n p msg|n p files IH] using DirectoryTreeFile_ind';
    simpl; destruct (decide (p = target)); try done.
  intros Hnone. f_equal. f_equal.
  induction IH as [|f files Hf _ IHfiles]; simpl in *; [done|].
  destruct (childrenAt target f) eqn:Ef; [done|].
  rewrite Hf by done. by rewrite IHfiles.
Qed.

(** After an update the first node with the target path, when there is
    one, carries the new children. *)
Lemma update_present target newChildren t :
  is_Some (childrenAt target t) →
  childrenAt target (recursivelyUpdateDirectoryTree t target newChildren)
  = Some newChildren.
Proof.
  induction t as [n p|n p msg|n p files IH] using DirectoryTreeFile_ind';
    simpl; destruct (decide (p = target)) as [->|Hne]; simpl;
    try (by rewrite decide_True); try (by intros [? ?]).
  rewrite decide_False by done.
  induction IH as [|f files Hf _ IHfiles]; simpl in *; [by intros [? ?]|].
  destruct (childrenAt target f) eqn:Ef.
  - intros _. by rewrite Hf.
  - intros Hsome. rewrite (update_absent _ _ _ Ef), Ef. by apply IHfiles.
Qed.

(** The root is always found. *)
Lemma childrenAt_root t : childrenAt (path t) t = Some (children t).
Proof. destruct t as [n p c]; simpl. by rewrite decide_True. Qed.

End DirectoryTreeFacts.

(** ** The path selector component *)

Module PathSelectorFacts.
Import DirectoryTree DirectoryTreeFacts PathSelector.

Section Facts.
Context `{ErrorMessages}.

(** *** Applying a response *)

Lemma updateTreeWithResponse_eq {T : Type} path
    (response : SynologyResponse T) parseChildren c :
  updateTreeWithResponse path response parseChildren c
  = setState
      (recursivelyUpdateDirectoryTree (directoryTree c) path
         (resultChildren parseChildren response)) c.
Proof. by destruct response. Qed.

Lemma parseFiles_unloaded data :
  Forall (fun f => children f = Unloaded) (parseFiles data).
Proof.
  unfold parseFiles. induction (files data); simpl; constructor; auto.
Qed.

Lemma parseShares_unloaded data :
  Forall (fun f => children f = Unloaded) (parseShares data).
Proof.
  unfold parseShares. induction (shares data); simpl; constructor; auto.
Qed.

(** *** Versions *)

Lemma requestVersion_set path v c p :
  requestVersion (setRequestVersion path v c) p
  = if decide (path = p) then v else requestVersion c p.
Proof.
  unfold requestVersion, setRequestVersion; simpl.
  rewrite lookup_insert. by destruct (decide (path = p)).
Qed.

Lemma isCurrent_true c path v :
  isCurrent c path v = true → requestVersion c path = v.
Proof.
  unfold isCurrent, requestVersion. intros Hc.
  apply bool_decide_eq_true in Hc. by rewrite Hc.
Qed.

Lemma resume_versions p r c c' :
  resume p r c = Some c' → requestVersionByPath c' = requestVersionByPath c.
Proof.
  unfold resume, loadTopLevelDirectories_resume, loadNestedDirectory_resume.
  destruct (call p), r; try done; intros [= <-];
    case_match; try done; by rewrite updateTreeWithResponse_eq.
Qed.

Lemma resume_stale p r c c' :
  resume p r c = Some c' →
  isCurrent c (pendingPath p) (stashedRequestVersion p) = false →
  c' = c.
Proof.
  unfold resume, pendingPath, loadTopLevelDirectories_resume,
    loadNestedDirectory_resume.
  destruct (call p), r; try done; intros [= <-] ->; done.
Qed.

Lemma resume_current p r c c' :
  resume p r c = Some c' →
  isCurrent c (pendingPath p) (stashedRequestVersion p) = true →
  c' = setState
         (recursivelyUpdateDirectoryTree (directoryTree c) (pendingPath p)
            (responseChildren r)) c.
Proof.
  unfold resume, pendingPath, loadTopLevelDirectories_resume,
    loadNestedDirectory_resume.
  destruct (call p), r; try done; intros [= <-] ->;
    by rewrite updateTreeWithResponse_eq.
Qed.

(** *** Extension of worlds *)

Lemma Extends_refl w : Extends w w.
Proof. split; [intros; lia | auto]. Qed.

Lemma Extends_trans w1 w2 w3 : Extends w1 w2 → Extends w2 w3 → Extends w1 w3.
Proof.
  intros [M12 F12] [M23 F23]. split.
  - intros p. specialize (M12 p). specialize (M23 p). lia.
  - intros q Hq. destruct (F23 q Hq) as [Hq2|Hnew].
    + destruct (F12 q Hq2) as [Hq1|Hnew]; [by left|right].
      specialize (M23 (pendingPath q)). lia.
    + right. specialize (M12 (pendingPath q)). lia.
Qed.

Lemma Extends_same w w' :
  requestVersionByPath (component w') = requestVersionByPath (component w) →
  inFlight w' ⊆ inFlight w →
  Extends w w'.
Proof.
  intros Hv Hin. split.
  - intros p. unfold requestVersion. rewrite Hv. lia.
  - intros q Hq. left. by apply Hin.
Qed.

Lemma Versioned_Extends w w' : Versioned w → Extends w w' → Versioned w'.
Proof.
  intros Hinv [Hmono Hfresh] q Hq.
  destruct (Hfresh q Hq) as [Hold|Hnew]; [|lia].
  specialize (Hinv q Hold). specialize (Hmono (pendingPath q)). lia.
Qed.

Lemma loadTopLevelDirectories_Raising : Raising loadTopLevelDirectories.
Proof.
  intros c. unfold loadTopLevelDirectories; simpl. split.
  - intros p. rewrite requestVersion_set.
    destruct (decide (ROOT_PATH = p)) as [<-|]; unfold requestVersion; simpl; lia.
  - intros q Hq. apply list_elem_of_singleton in Hq as ->.
    unfold pendingPath; simpl. rewrite requestVersion_set, decide_True by done.
    unfold requestVersion; simpl. lia.
Qed.

Lemma loadNestedDirectory_Raising path : Raising (loadNestedDirectory path).
Proof.
  intros c. unfold loadNestedDirectory.
  destruct (isLoadedChild (children (directoryTree c))); simpl.
  - split.
    + intros p. rewrite requestVersion_set.
      destruct (decide (path = p)) as [<-|]; lia.
    + intros q Hq. apply list_elem_of_singleton in Hq as ->.
      unfold pendingPath; simpl. rewrite requestVersion_set, decide_True by done.
      lia.
  - split; [intros; lia|]. intros q Hq. by apply elem_of_nil in Hq.
Qed.

Lemma start_Extends m w : Raising m → Extends w (start m w).
Proof.
  intros Hm. destruct (Hm (component w)) as [Hmono Hnew]. split; simpl.
  - done.
  - intros q Hq. apply elem_of_app in Hq as [Hq|Hq]; [by left|right; auto].
Qed.

Lemma unsubscribeFromClient_frame w :
  requestVersionByPath (component (unsubscribeFromClient w))
  = requestVersionByPath (component w)
  ∧ inFlight (unsubscribeFromClient w) = inFlight w
  ∧ directoryTree (component (unsubscribeFromClient w))
    = directoryTree (component w)
  ∧ props_client (component (unsubscribeFromClient w))
    = props_client (component w).
Proof. unfold unsubscribeFromClient. by destruct (unsubscribeCallback _). Qed.

Lemma subscribeToClient_frame client w :
  requestVersionByPath (component (subscribeToClient client w))
  = requestVersionByPath (component w)
  ∧ inFlight (subscribeToClient client w) = inFlight w
  ∧ directoryTree (component (subscribeToClient client w))
    = directoryTree (component w)
  ∧ props_client (component (subscribeToClient client w))
    = props_client (component w).
Proof.
  unfold subscribeToClient; simpl.
  destruct (unsubscribeFromClient_frame w) as (-> & -> & -> & ->). done.
Qed.

Lemma notifySettingsChange_Extends client w :
  Extends w (notifySettingsChange client w).
Proof.
  unfold notifySettingsChange.
  generalize (List.filter (λ s, bool_decide (sub_client s = client)) (listeners w)).
  intros l. revert w. induction l as [|s l IH]; intros w; simpl.
  - apply Extends_refl.
  - eapply Extends_trans; [|apply IH].
    apply start_Extends, loadTopLevelDirectories_Raising.
Qed.

Lemma step_Extends e w w' : step e w = Some w' → Extends w w'.
Proof.
  destruct e as [| |nextClient|client|path|i response]; simpl.
  - intros [= <-]. unfold componentDidMount.
    eapply Extends_trans;
      [|apply start_Extends, loadTopLevelDirectories_Raising].
    destruct (subscribeToClient_frame (props_client (component w)) w)
      as (Hv & Hi & _). apply Extends_same; [done|by rewrite Hi].
  - intros [= <-]. unfold componentWillUnmount.
    destruct (unsubscribeFromClient_frame w) as (Hv & Hi & _).
    apply Extends_same; [done|by rewrite Hi].
  - intros [= <-].
    eapply Extends_trans with (componentWillReceiveProps nextClient w);
      [|by apply Extends_same].
    unfold componentWillReceiveProps. case_bool_decide; [|apply Extends_refl].
    eapply Extends_trans;
      [|apply start_Extends, loadTopLevelDirectories_Raising].
    eapply Extends_trans with (unsubscribeFromClient w).
    + destruct (unsubscribeFromClient_frame w) as (Hv & Hi & _).
      apply Extends_same; [done|by rewrite Hi].
    + match goal with |- Extends ?a (subscribeToClient ?c ?a) =>
        destruct (subscribeToClient_frame c a) as (Hv & Hi & _) end.
      apply Extends_same; [done|by rewrite Hi].
  - intros [= <-]. apply notifySettingsChange_Extends.
  - intros [= <-]. apply start_Extends, loadNestedDirectory_Raising.
  - destruct (inFlight w !! i) as [p|] eqn:Ep; simpl; [|done].
    destruct (resume p response (component w)) as [c|] eqn:Ec; simpl; [|done].
    intros [= <-]. apply Extends_same; simpl.
    + by apply resume_versions in Ec.
    + apply sublist_subseteq, sublist_delete.
Qed.

Lemma run_Extends es w w' : run es w = Some w' → Extends w w'.
Proof.
  revert w. induction es as [|e es IH]; intros w; simpl.
  - intros [= <-]. apply Extends_refl.
  - destruct (step e w) as [w1|] eqn:Es; simpl; [|done].
    intros Hr. eapply Extends_trans; [by eapply step_Extends|by apply IH].
Qed.

Lemma run_app es1 es2 w :
  run (es1 ++ es2) w = w' ← run es1 w; run es2 w'.
Proof.
  revert w. induction es1 as [|e es1 IH]; intros w; simpl; [done|].
  destruct (step e w); simpl; [apply IH|done].
Qed.

Lemma initial_Versioned client : Versioned (initial client).
Proof. intros q Hq. by apply elem_of_nil in Hq. Qed.

Lemma reachable_Versioned client es w :
  run es (initial client) = Some w → Versioned w.
Proof.
  intros Hr. eapply Versioned_Extends;
    [apply initial_Versioned|by eapply run_Extends].
Qed.

(** *** Subscriptions *)

Lemma start_callback m w :
  (∀ c, unsubscribeCallback (after (m c)) = unsubscribeCallback c) →
  SingleSubscription w → SingleSubscription (start m w).
Proof. unfold SingleSubscription; simpl. intros ->. done. Qed.

Lemma loadTopLevelDirectories_callback c :
  unsubscribeCallback (after (loadTopLevelDirectories c)) = unsubscribeCallback c.
Proof. done. Qed.

Lemma loadNestedDirectory_callback path c :
  unsubscribeCallback (after (loadNestedDirectory path c)) = unsubscribeCallback c.
Proof. unfold loadNestedDirectory. by case_match. Qed.

Lemma resume_callback p r c c' :
  resume p r c = Some c' → unsubscribeCallback c' = unsubscribeCallback c.
Proof.
  unfold resume, loadTopLevelDirectories_resume, loadNestedDirectory_resume.
  destruct (call p), r; try done; intros [= <-];
    case_match; try done; by rewrite updateTreeWithResponse_eq.
Qed.

(** Unsubscribing leaves the component without any registration. *)
Lemma unsubscribeFromClient_releases w :
  SingleSubscription w →
  listeners (unsubscribeFromClient w) = []
  ∧ unsubscribeCallback (component (unsubscribeFromClient w)) = None.
Proof.
  unfold SingleSubscription, unsubscribeFromClient.
  destruct (unsubscribeCallback (component w)) as [s|] eqn:Ecb; simpl.
  - intros ->. simpl. rewrite bool_decide_eq_false_2 by auto. done.
  - by intros ->.
Qed.

(** Subscribing replaces the registration held, whatever it was, by one
    registration with the client given. *)
Lemma subscribeToClient_replaces client w :
  SingleSubscription w →
  ∃ s, listeners (subscribeToClient client w) = [s]
     ∧ unsubscribeCallback (component (subscribeToClient client w)) = Some s
     ∧ sub_client s = client.
Proof.
  intros Hw. destruct (unsubscribeFromClient_releases w Hw) as [Hl Hc].
  unfold subscribeToClient; simpl. rewrite Hl. eauto.
Qed.

Lemma subscribeToClient_Single client w :
  SingleSubscription w → SingleSubscription (subscribeToClient client w).
Proof.
  intros Hw. destruct (subscribeToClient_replaces client w Hw) as (s & Hl & Hc & _).
  unfold SingleSubscription. by rewrite Hl, Hc.
Qed.

Lemma unsubscribeFromClient_Single w :
  SingleSubscription w → SingleSubscription (unsubscribeFromClient w).
Proof.
  intros Hw. destruct (unsubscribeFromClient_releases w Hw) as [Hl Hc].
  unfold SingleSubscription. by rewrite Hl, Hc.
Qed.

Lemma notifySettingsChange_Single client w :
  SingleSubscription w → SingleSubscription (notifySettingsChange client w).
Proof.
  unfold notifySettingsChange.
  generalize (List.filter (λ s, bool_decide (sub_client s = client)) (listeners w)).
  intros l. revert w. induction l as [|s l IH]; intros w Hw; simpl; [done|].
  apply IH, start_callback; [apply loadTopLevelDirectories_callback|done].
Qed.

Lemma step_Single e w w' :
  step e w = Some w' → SingleSubscription w → SingleSubscription w'.
Proof.
  destruct e as [| |nextClient|client|path|i response]; simpl.
  - intros [= <-] Hw. unfold componentDidMount.
    apply start_callback; [apply loadTopLevelDirectories_callback|].
    by apply subscribeToClient_Single.
  - intros [= <-] Hw. by apply unsubscribeFromClient_Single.
  - intros [= <-] Hw.
    assert (SingleSubscription (componentWillReceiveProps nextClient w)) as Hs.
    { unfold componentWillReceiveProps. case_bool_decide; [|done].
      apply start_callback; [apply loadTopLevelDirectories_callback|].
      by apply subscribeToClient_Single, unsubscribeFromClient_Single. }
    exact Hs.
  - intros [= <-] Hw. by apply notifySettingsChange_Single.
  - intros [= <-] Hw.
    apply start_callback; [apply loadNestedDirectory_callback|done].
  - destruct (inFlight w !! i) as [p|] eqn:Ep; simpl; [|done].
    destruct (resume p response (component w)) as [c|] eqn:Ec; simpl; [|done].
    intros [= <-]. unfold SingleSubscription; simpl.
    by rewrite (resume_callback _ _ _ _ Ec).
Qed.

Lemma reachable_Single client es w :
  run es (initial client) = Some w → SingleSubscription w.
Proof.
  assert (∀ w0, SingleSubscription w0 → run es w0 = Some w →
                SingleSubscription w) as Hgen.
  { induction es as [|e es IH]; intros w0 H0; simpl.
    - by intros [= <-].
    - destruct (step e w0) as [w1|] eqn:Es; simpl; [|done].
      apply IH. by eapply step_Single. }
  apply Hgen. done.
Qed.

(** Unmounting releases the registration. *)
Lemma unmount_releases client es w w' :
  run es (initial client) = Some w →
  step WillUnmount w = Some w' →
  listeners w' = [] ∧ unsubscribeCallback (component w') = None.
Proof.
  intros Hr [= <-]. apply unsubscribeFromClient_releases.
  by eapply reachable_Single.
Qed.

(** *** The claims about the component *)

(** C1.  When a call in flight for a path resolves, the component changes
    only if the version stashed at dispatch is the one now stored for the
    path, and then the response is folded into the tree at that path.  If
    a newer call for the same path was put in flight in the meantime, the
    late response changes nothing in the component: not the tree, not the
    versions, not the subscription. *)
Theorem stale_response_discarded client es w i old response w' :
  run es (initial client) = Some w →
  inFlight w !! i = Some old →
  step (Resolve i response) w = Some w' →
  (component w' ≠ component w →
     requestVersionByPath (component w) !! pendingPath old
     = Some (stashedRequestVersion old))
  ∧ (requestVersionByPath (component w) !! pendingPath old
     = Some (stashedRequestVersion old) →
     component w'
     = setState
         (recursivelyUpdateDirectoryTree (directoryTree (component w))
            (pendingPath old) (responseChildren response))
         (component w))
  ∧ (Superseded client es old → component w' = component w).
Proof.
  intros Hrun Hold Hstep. simpl in Hstep. rewrite Hold in Hstep. simpl in Hstep.
  destruct (resume old response (component w)) as [c|] eqn:Ec;
    simpl in Hstep; [|done].
  injection Hstep as <-. simpl.
  destruct (isCurrent (component w) (pendingPath old)
              (stashedRequestVersion old)) eqn:Ecur.
  - pose proof Ecur as Hlook. apply bool_decide_eq_true in Hlook.
    split; [done|]. split.
    + intros _. by apply resume_current.
    + intros (es1 & e & es2 & w1 & w2 & newer & -> & Hr1 & Hin1 & He & Hin2
              & Hnot & Hpath).
      exfalso. rewrite run_app, Hr1 in Hrun. simpl in Hrun.
      rewrite He in Hrun. simpl in Hrun.
      pose proof (reachable_Versioned _ _ _ Hr1 old Hin1) as Hle.
      destruct (step_Extends _ _ _ He) as [_ Hfresh].
      destruct (Hfresh newer Hin2) as [?|Hlt]; [done|].
      destruct (run_Extends _ _ _ Hrun) as [Hmono _].
      specialize (Hmono (pendingPath old)).
      apply isCurrent_true in Ecur. rewrite Hpath in Hlt. lia.
  - pose proof (resume_stale _ _ _ _ Ec Ecur) as ->.
    apply bool_decide_eq_false in Ecur.
    split; [done|]. split; [|done].
    intros Hlook. by destruct Ecur.
Qed.


(** C6.  Applying a response at a path of the tree sets the children of
    the node at that path: to a failure carrying the translation of the
    connection failure, to a failure carrying the translation of the
    error code, or to the parsed entries; nothing else in the component
    changes.  The two parsers in use turn every returned entry into a
    node whose children are unloaded.  The function returns a component
    for each of the three kinds of response: a failure is data. *)
Theorem response_sets_children {T : Type} path
    (response : SynologyResponse T) parseChildren c :
  is_Some (childrenAt path (directoryTree c)) →
  let c' := updateTreeWithResponse path response parseChildren c in
  childrenAt path (directoryTree c')
  = Some
      match response with
      | Failure failure =>
          LoadingFailed (errorMessageFromConnectionFailure failure)
      | ErrorResponse code =>
          LoadingFailed (errorMessageFromCode code "FileStation")
      | SuccessResponse data => Loaded (parseChildren data)
      end
  ∧ props_client c' = props_client c
  ∧ unsubscribeCallback c' = unsubscribeCallback c
  ∧ requestVersionByPath c' = requestVersionByPath c
  ∧ (∀ data,
       parseShares data
       = List.map (λ d, mkFile (share_name d) (share_path d) Unloaded)
           (shares data))
  ∧ (∀ data,
       parseFiles data
       = List.map (λ f, mkFile (file_name f) (file_path f) Unloaded)
           (files data)).
Proof.
  intros Hpresent c'. subst c'. rewrite updateTreeWithResponse_eq. simpl.
  rewrite update_present by done. by destruct response.
Qed.

(** C3, as the code has it.  When the component receives another client,
    it drops its registration and registers again, once, but with the
    client it had, not with the one it receives: afterwards its only
    registration is with the previous client. *)
Theorem receiveProps_subscribes_previous_client client es w nextClient w' :
  run es (initial client) = Some w →
  props_client (component w) ≠ nextClient →
  step (ReceiveProps nextClient) w = Some w' →
  props_client (component w') = nextClient
  ∧ ∃ s, listeners w' = [s]
       ∧ unsubscribeCallback (component w') = Some s
       ∧ sub_client s = props_client (component w)
       ∧ sub_client s ≠ props_client (component w').
Proof.
  intros Hrun Hne [= <-]. split; [done|].
  unfold componentWillReceiveProps. rewrite bool_decide_eq_true_2 by done.
  pose proof (reachable_Single _ _ _ Hrun) as Hs.
  apply unsubscribeFromClient_Single in Hs.
  destruct (subscribeToClient_replaces
              (props_client (component (unsubscribeFromClient w))) _ Hs)
    as (s & Hl & Hc & Hsc).
  destruct (unsubscribeFromClient_frame w) as (_ & _ & _ & Hp).
  rewrite Hp in Hsc, Hl, Hc |- *.
  set (w2 := subscribeToClient (props_client (component w))
               (unsubscribeFromClient w)) in *.
  exists s. simpl. by rewrite Hsc.
Qed.

End Facts.

(** *** The claims at concrete inputs *)

Import Samples.

(** Mount, then a settings change: the first listing of the root is
    superseded by the second, and resolving it changes nothing. *)
Lemma stale_response_discarded_witness :
  ∃ w w',
    run [DidMount; SettingsChange 1] (initial 1) = Some w
    ∧ step (Resolve 0 (ListShareResponse (SuccessResponse twoShares))) w
      = Some w'
    ∧ component w' = component w.
Proof.
  eexists _, _. split; [vm_compute; reflexivity|].
  split; [vm_compute; reflexivity|].
  refine (proj2 (proj2 (stale_response_discarded 1 [DidMount; SettingsChange 1]
            _ 0 {| call := list_share 1 "name"; stashedRequestVersion := 1 |}
            (ListShareResponse (SuccessResponse twoShares)) _ _ _ _)) _).
  - vm_compute; reflexivity.
  - vm_compute; reflexivity.
  - vm_compute; reflexivity.
  - exists [DidMount], (SettingsChange 1), [].
    eexists _, _, {| call := list_share 1 "name"; stashedRequestVersion := 2 |}.
    split; [reflexivity|]. split; [vm_compute; reflexivity|].
    split; [vm_compute; apply list_elem_of_here|].
    split; [vm_compute; reflexivity|].
    split; [vm_compute; apply list_elem_of_further, list_elem_of_here|].
    split; [|reflexivity].
    vm_compute. intros Hin. apply list_elem_of_singleton in Hin. discriminate.
Defined.

Example browsing_reached :
  run [DidMount; Resolve 0 (ListShareResponse (SuccessResponse twoShares))]
    (initial 1)
  = Some browsing.
Proof. vm_compute. reflexivity. Qed.


(** A failed listing of "/video" marks that node, and only that node. *)
Lemma response_sets_children_witness :
  childrenAt "/video"
    (directoryTree
       (updateTreeWithResponse "/video"
          (ErrorResponse 408 : SynologyResponse ListData) parseFiles
          (component browsing)))
  = Some (LoadingFailed "FileStation: request failed").
Proof.
  assert (is_Some (childrenAt "/video" (directoryTree (component browsing))))
    as Hpresent by (vm_compute; eauto).
  exact (proj1 (response_sets_children "/video"
                  (ErrorResponse 408 : SynologyResponse ListData) parseFiles
                  (component browsing) Hpresent)).
Defined.

(** Mounted with client 1, the component receives client 2: its
    registration stays with client 1. *)
Lemma receiveProps_subscribes_previous_client_witness :
  ∃ w w',
    run [DidMount] (initial 1) = Some w
    ∧ step (ReceiveProps 2) w = Some w'
    ∧ props_client (component w') = 2
    ∧ ∃ s, listeners w' = [s]
         ∧ unsubscribeCallback (component w') = Some s
         ∧ sub_client s = props_client (component w)
         ∧ sub_client s ≠ props_client (component w').
Proof.
  eexists _, _. split; [vm_compute; reflexivity|].
  split; [vm_compute; reflexivity|].
  refine (receiveProps_subscribes_previous_client 1 [DidMount] _ 2 _ _ _ _).
  - vm_compute; reflexivity.
  - vm_compute. discriminate.
  - vm_compute; reflexivity.
Defined.

Example receiveProps_listeners :
  listeners <$> run [DidMount; ReceiveProps 2] (initial 1)
  = Some [ {| sub_client := 1; sub_token := 1 |} ].
Proof. vm_compute. reflexivity. Qed.

End PathSelectorFacts.

(** ** The background script *)

Module BackgroundFacts.
Import Background.

(** *** Splitting and trimming *)

Lemma split_nonempty s : split s ≠ [].
Proof.
  destruct s as [|c s]; simpl; [done|].
  destruct (c =? LF)%N; [done|]. by destruct (split s).
Qed.

(** Joining the lines again gives the text back. *)
Lemma join_split s : join (split s) = s.
Proof.
  induction s as [|c s IH]; simpl; [done|].
  destruct (c =? LF)%N eqn:Ec.
  - apply N.eqb_eq in Ec as ->.
    pose proof (split_nonempty s) as Hne.
    destruct (split s) as [|line lines] eqn:Es; [done|].
    simpl in *. by rewrite IH.
  - pose proof (split_nonempty s) as Hne.
    destruct (split s) as [|line lines] eqn:Es; [done|].
    destruct lines as [|line' lines]; simpl in *; by rewrite <- IH.
Qed.

(** No line holds a line feed. *)
Lemma split_no_LF s : Forall (λ line, LF ∉ line) (split s).
Proof.
  induction s as [|c s IH]; simpl.
  - constructor; [|constructor]. by intros ?%elem_of_nil.
  - destruct (c =? LF)%N eqn:Ec.
    + constructor; [|done]. by intros ?%elem_of_nil.
    + apply N.eqb_neq in Ec.
      destruct (split s) as [|line lines]; [|inversion IH; subst].
      * constructor; [|constructor].
        intros Hin%list_elem_of_singleton. congruence.
      * constructor; [|done].
        intros [?|?]%elem_of_cons; [congruence|done].
Qed.

(** [trimStart] removes a run of white space from the front and stops at
    the first code unit that is not white space. *)
Lemma trimStart_spec s :
  ∃ removed, s = (removed ++ trimStart s)%list
    ∧ Forall (λ c, isWhiteSpace c = true) removed
    ∧ match trimStart s with
      | c :: _ => isWhiteSpace c = false
      | [] => True
      end.
Proof.
  induction s as [|c s (removed & Heq & Hws & Hhead)]; simpl.
  - by exists [].
  - destruct (isWhiteSpace c) eqn:Ec.
    + exists (c :: removed). simpl. rewrite <- Heq. by repeat split; [constructor|].
    + exists []. by repeat split.
Qed.

(** [trim] removes white space from both ends, and only that. *)
Lemma trim_spec s :
  ∃ front back, s = (front ++ trim s ++ back)%list
    ∧ Forall (λ c, isWhiteSpace c = true) front
    ∧ Forall (λ c, isWhiteSpace c = true) back
    ∧ match trim s with
      | c :: _ => isWhiteSpace c = false
      | [] => True
      end
    ∧ match rev (trim s) with
      | c :: _ => isWhiteSpace c = false
      | [] => True
      end.
Proof.
  unfold trim, trimEnd.
  destruct (trimStart_spec s) as (front & Hs & Hfront & Hhead).
  destruct (trimStart_spec (rev (trimStart s))) as (back & Hr & Hback & Hlast).
  exists front, (rev back). split; [|split; [done|split; [|split]]].
  - rewrite Hs at 1. f_equal.
    rewrite <- (rev_involutive (trimStart s)), Hr at 1.
    by rewrite rev_app_distr.
  - by apply Forall_rev.
  - (* the head survives unless everything was white space *)
    set (t := trimStart s) in *.
    destruct (rev (trimStart (rev t))) as [|c u] eqn:Et; [done|].
    assert (rev t = (back ++ trimStart (rev t))%list) as Hr' by done.
    apply (f_equal (@rev N)) in Hr'.
    rewrite rev_involutive, rev_app_distr, Et in Hr'.
    rewrite Hr' in Hhead. done.
  - by rewrite rev_involutive.
Qed.

Section Facts.
Context `{I18n} `{Protocols} `{Clock} `{StateModule}.

(** *** The listener, block by block *)

Lemma listener_eq s b :
  listener s b
  = let b1 := (reconfigure s b).1 in
    let b2 := (resetInterval s b1).1 in
    let b3 := cacheFeedbackFlag s b2 in
    ((detectCompletions s b3).1,
     ((reconfigure s b).2 ++ (resetInterval s b1).2 ++ updateBadge s
      ++ (detectCompletions s b3).2)%list).
Proof.
  unfold listener. destruct (reconfigure s b) as [b1 e1]; simpl.
  destruct (resetInterval s b1) as [b2 e2]; simpl.
  by destruct (detectCompletions s (cacheFeedbackFlag s b2)).
Qed.

Ltac blocks :=
  unfold reconfigure, updateSettings, resetInterval, cacheFeedbackFlag,
    updateBadge, detectCompletions;
  repeat (case_bool_decide || case_match); simpl; try done.

Lemma reconfigure_frame s b :
  finishedTaskIds (reconfigure s b).1 = finishedTaskIds b
  ∧ notified (reconfigure s b).2 = []
  ∧ List.filter isBadgeEffect (reconfigure s b).2 = []
  ∧ List.filter isCacheEffect (reconfigure s b).2 = (reconfigure s b).2.
Proof. blocks. Qed.

Lemma resetInterval_frame s b :
  finishedTaskIds (resetInterval s b).1 = finishedTaskIds b
  ∧ apiSettings (resetInterval s b).1 = apiSettings b
  ∧ didInitializeSettings (resetInterval s b).1 = didInitializeSettings b
  ∧ notified (resetInterval s b).2 = []
  ∧ List.filter isBadgeEffect (resetInterval s b).2 = []
  ∧ List.filter isCacheEffect (resetInterval s b).2 = [].
Proof. blocks. Qed.

Lemma updateBadge_frame s :
  notified (updateBadge s) = []
  ∧ List.filter isBadgeEffect (updateBadge s) = updateBadge s
  ∧ List.filter isCacheEffect (updateBadge s) = [].
Proof. blocks. Qed.

Lemma completionNotifications_only_notify s b :
  List.filter isBadgeEffect (completionNotifications s b) = []
  ∧ List.filter isCacheEffect (completionNotifications s b) = [].
Proof.
  unfold completionNotifications. repeat case_match; try done.
  induction (newlyFinished s _) as [|i l [IH1 IH2]]; simpl; auto.
Qed.

Lemma detectCompletions_frame s b :
  apiSettings (detectCompletions s b).1 = apiSettings b
  ∧ didInitializeSettings (detectCompletions s b).1 = didInitializeSettings b
  ∧ List.filter isBadgeEffect (detectCompletions s b).2 = []
  ∧ List.filter isCacheEffect (detectCompletions s b).2 = [].
Proof.
  destruct (completionNotifications_only_notify s b) as [Hb Hc].
  unfold detectCompletions. case_match; simpl; auto.
Qed.

Lemma notified_app e1 e2 : notified (e1 ++ e2) = (notified e1 ++ notified e2)%list.
Proof. apply flat_map_app. Qed.

(** The notifications of the listener are those of its last block, run
    on the stored set the listener started with. *)
Lemma listener_completions s b :
  ∃ b3, finishedTaskIds b3 = finishedTaskIds b
    ∧ finishedTaskIds (listener s b).1 = finishedTaskIds (detectCompletions s b3).1
    ∧ notified (listener s b).2 = notified (detectCompletions s b3).2.
Proof.
  rewrite listener_eq. simpl.
  set (b1 := (reconfigure s b).1).
  set (b2 := (resetInterval s b1).1).
  exists (cacheFeedbackFlag s b2). split; [|split; [done|]].
  - simpl. subst b2 b1.
    destruct (resetInterval_frame s (reconfigure s b).1) as (-> & _).
    by destruct (reconfigure_frame s b) as (-> & _).
  - rewrite !notified_app.
    destruct (reconfigure_frame s b) as (_ & -> & _).
    destruct (resetInterval_frame s b1) as (_ & _ & _ & -> & _).
    by destruct (updateBadge_frame s) as (-> & _).
Qed.

Lemma listener_badge s b :
  List.filter isBadgeEffect (listener s b).2 = updateBadge s.
Proof.
  rewrite listener_eq. simpl. rewrite !List.filter_app.
  destruct (reconfigure_frame s b) as (_ & _ & -> & _).
  destruct (resetInterval_frame s (reconfigure s b).1) as (_ & _ & _ & _ & -> & _).
  destruct (updateBadge_frame s) as (_ & -> & _).
  destruct (detectCompletions_frame s
              (cacheFeedbackFlag s (resetInterval s (reconfigure s b).1).1))
    as (_ & _ & -> & _).
  by rewrite app_nil_r.
Qed.

Lemma listener_client s b :
  apiSettings (listener s b).1 = apiSettings (reconfigure s b).1
  ∧ didInitializeSettings (listener s b).1
    = didInitializeSettings (reconfigure s b).1
  ∧ List.filter isCacheEffect (listener s b).2 = (reconfigure s b).2.
Proof.
  rewrite listener_eq. simpl. rewrite !List.filter_app.
  destruct (reconfigure_frame s b) as (_ & _ & _ & ->).
  destruct (resetInterval_frame s (reconfigure s b).1)
    as (_ & Ha & Hd & _ & _ & ->).
  destruct (updateBadge_frame s) as (_ & _ & ->).
  destruct (detectCompletions_frame s
              (cacheFeedbackFlag s (resetInterval s (reconfigure s b).1).1))
    as (-> & -> & _ & ->).
  simpl. rewrite Ha, Hd. by rewrite app_nil_r.
Qed.

(** *** Completion notifications *)

(** With unique ids, the task found for the id of a task is that task. *)
Lemma find_by_id (ts : list Task) t :
  NoDup (List.map id ts) → t ∈ ts →
  List.find (λ t', String.eqb (id t') (id t)) ts = Some t.
Proof.
  induction ts as [|h ts IH]; simpl; [by intros _ ?%elem_of_nil|].
  intros [Hh Hts]%NoDup_cons [->|Hin]%elem_of_cons.
  - by rewrite String.eqb_refl.
  - destruct (String.eqb (id h) (id t)) eqn:Eh; [|by apply IH].
    apply String.eqb_eq in Eh. destruct Hh. rewrite Eh.
    apply list_elem_of_In, in_map, list_elem_of_In, Hin.
Qed.

Lemma titleOf_task s t :
  NoDup (List.map id (tasks s)) → t ∈ tasks s → titleOf s (id t) = title t.
Proof. intros Hnd Hin. unfold titleOf. by rewrite find_by_id. Qed.

Lemma fetchedSinceStart_true s :
  fetchedSinceStart s = true
  ↔ ∃ t, tasksLastCompletedFetchTimestamp s = Some t
       ∧ (START_TIME < t)%Z ∧ taskFetchFailureReason s = None.
Proof.
  unfold fetchedSinceStart. rewrite andb_true_iff, !bool_decide_eq_true.
  destruct (tasksLastCompletedFetchTimestamp s) as [t|]; split.
  - intros [Ht%bool_decide_eq_true Hr]. eauto.
  - intros (t' & [= <-] & Ht & Hr). by rewrite bool_decide_eq_true.
  - by intros [? _].
  - by intros (t' & ? & _).
Qed.

Lemma NoDup_map_filter {A B : Type} (f : A → B) (P : A → bool) (l : list A) :
  NoDup (List.map f l) → NoDup (List.map f (List.filter P l)).
Proof.
  induction l as [|x l IH]; simpl; [done|].
  intros [Hx Hl]%NoDup_cons. destruct (P x); simpl; [|by apply IH].
  apply NoDup_cons. split; [|by apply IH].
  intros Hin. apply Hx.
  apply list_elem_of_In, in_map_iff in Hin as (y & Hy & Hin).
  apply filter_In in Hin as [Hin _].
  rewrite <- Hy. by apply list_elem_of_In, in_map.
Qed.

Lemma elem_of_map_filter {A B : Type} (f : A → B) (P : A → bool) (l : list A) y :
  y ∈ List.map f (List.filter P l) ↔ ∃ x, x ∈ l ∧ P x = true ∧ f x = y.
Proof.
  rewrite list_elem_of_In, in_map_iff. split.
  - intros (x & Hy & [Hin HP]%filter_In). exists x.
    by rewrite list_elem_of_In.
  - intros (x & Hin & HP & Hy). exists x. split; [done|].
    apply filter_In. by rewrite <- list_elem_of_In.
Qed.

Lemma notified_titles s (l : list Task) :
  NoDup (List.map id (tasks s)) →
  (∀ x, x ∈ l → x ∈ tasks s) →
  notified
    (List.map
       (λ x, notify (titleOf s (id x)) (getMessage "Download_finished") None) l)
  = List.map (λ x, (title x, getMessage "Download_finished")) l.
Proof.
  intros Hnd. induction l as [|x l IH]; simpl; [done|].
  intros Hin. rewrite titleOf_task by (done || apply Hin, list_elem_of_here).
  f_equal. apply IH. intros y Hy. by apply Hin, list_elem_of_further.
Qed.

(** C2.  On a snapshot that passes the guard, with task ids unique as in
    the data model: the stored set becomes the ids of the finished or
    seeding tasks, whether or not notifications are enabled; no
    notification fires when no set was stored; when a set was stored and
    completion notifications are enabled, the notifications are those of
    the finished or seeding tasks whose id was not in the stored set, one
    for each, titled by the task, and their ids are distinct and are
    exactly the ids in the new set and not in the prior one. *)
Theorem completion_notifications s b t :
  tasksLastCompletedFetchTimestamp s = Some t →
  (START_TIME < t)%Z →
  taskFetchFailureReason s = None →
  NoDup (List.map id (tasks s)) →
  let finished := List.filter isFinished (tasks s) in
  let updated : gset string := list_to_set (List.map id finished) in
  finishedTaskIds (listener s b).1 = Some updated
  ∧ match finishedTaskIds b with
    | None => notified (listener s b).2 = []
    | Some prior =>
        if enableCompletionNotifications (notifications (settings s)) then
          let fresh :=
            List.filter (λ t, negb (bool_decide (id t ∈ prior))) finished in
          notified (listener s b).2
          = List.map (λ t, (title t, getMessage "Download_finished")) fresh
          ∧ NoDup (List.map id fresh)
          ∧ ∀ i, i ∈ List.map id fresh ↔ i ∈ updated ∧ i ∉ prior
        else notified (listener s b).2 = []
    end.
Proof.
  intros Ht Hnew Hok Hnd finished updated.
  assert (fetchedSinceStart s = true) as Hguard
    by (apply fetchedSinceStart_true; eauto).
  destruct (listener_completions s b) as (b3 & Hb3 & -> & ->).
  unfold detectCompletions. rewrite Hguard. simpl. split; [done|].
  unfold completionNotifications. rewrite Hb3.
  destruct (finishedTaskIds b) as [prior|]; [|done].
  destruct (enableCompletionNotifications _); [|done].
  unfold newlyFinished, updatedFinishedTaskIds. fold finished.
  rewrite filter_map_swap, List.map_map. simpl. split; [|split].
  - apply notified_titles; [done|].
    intros x Hx. apply list_elem_of_In, filter_In in Hx as [Hx _].
    apply filter_In in Hx as [Hx _]. by apply list_elem_of_In.
  - by apply NoDup_map_filter, NoDup_map_filter.
  - intros i. subst updated. rewrite elem_of_list_to_set.
    rewrite (elem_of_map_filter id _ finished i). split.
    + intros (x & Hx & Hp & <-). split.
      * by apply list_elem_of_In, in_map, list_elem_of_In.
      * apply negb_true_iff, bool_decide_eq_false in Hp. done.
    + intros [Hi Hp].
      apply list_elem_of_In, in_map_iff in Hi as (x & <- & Hx).
      exists x. split; [by apply list_elem_of_In|]. split; [|done].
      by apply negb_true_iff, bool_decide_eq_false.
Qed.

(** C9.  On a snapshot that fails the guard (no completed fetch, or one
    not later than the start of the process, or a fetch failure), the
    stored set of finished ids stays what it was, undefined included, and
    the listener notifies nothing. *)
Theorem guard_failure_keeps_baseline s b :
  tasksLastCompletedFetchTimestamp s = None
  ∨ (∃ t, tasksLastCompletedFetchTimestamp s = Some t ∧ (t ≤ START_TIME)%Z)
  ∨ is_Some (taskFetchFailureReason s) →
  finishedTaskIds (listener s b).1 = finishedTaskIds b
  ∧ notified (listener s b).2 = [].
Proof.
  intros Hfail.
  assert (fetchedSinceStart s = false) as Hguard.
  { apply not_true_is_false. intros (t & Ht & Hlt & Hr)%fetchedSinceStart_true.
    destruct Hfail as [Hnone|[(t' & Ht' & Hle)|[r Hsome]]]; [congruence| |congruence].
    rewrite Ht in Ht'. injection Ht' as <-. lia. }
  destruct (listener_completions s b) as (b3 & Hb3 & -> & ->).
  unfold detectCompletions. by rewrite Hguard.
Qed.

(** *** Badge and icon *)

Lemma to_uint_nonnil n : Nat.to_uint n ≠ Decimal.Nil.
Proof.
  rewrite <- (Unsigned.of_to n), Unsigned.to_of at 1.
  unfold Decimal.unorm. by destruct (Decimal.nzhead _).
Qed.

(** [toString] writes a count in decimal: read back, its digits give the
    count. *)
Lemma toString_decimal n :
  Nat.of_uint <$> NilZero.uint_of_string (toString n) = Some n.
Proof.
  unfold toString. rewrite NilZero.usu by apply to_uint_nonnil.
  simpl. by rewrite Unsigned.of_to.
Qed.

(** C7.  The calls to the browser action made for a snapshot are: after
    a failed fetch, the disabled icon, an empty badge text and the red
    background; otherwise the normal icon, a badge text that is empty for
    a count of 0 and the decimal writing of the count otherwise, and the
    green background, where the count is the number of tasks in mode
    "total" and the number of filtered tasks in mode "filtered".  The
    display mode is one of the two. *)
Theorem badge_rendering s b :
  List.filter isBadgeEffect (listener s b).2
  = match taskFetchFailureReason s with
    | Some _ =>
        [setIcon
           [("16", "icons/icon-16-disabled.png");
            ("32", "icons/icon-32-disabled.png");
            ("64", "icons/icon-64-disabled.png");
            ("128", "icons/icon-128-disabled.png");
            ("256", "icons/icon-256-disabled.png")];
         setBadgeText "";
         setBadgeBackgroundColor [217; 0; 0; 255]%Z]
    | None =>
        let count :=
          match badgeDisplayType (settings s) with
          | total => length (tasks s)
          | filtered =>
              length (filterTasks (tasks s) (visibleTasks (settings s)))
          end in
        [setIcon
           [("16", "icons/icon-16.png"); ("32", "icons/icon-32.png");
            ("64", "icons/icon-64.png"); ("128", "icons/icon-128.png");
            ("256", "icons/icon-256.png")];
         setBadgeText
           match count with
           | 0 => ""
           | S _ => toString count
           end;
         setBadgeBackgroundColor [0; 217; 0; 255]%Z]
    end
  ∧ (badgeDisplayType (settings s) = total
     ∨ badgeDisplayType (settings s) = filtered)
  ∧ ∀ n, Nat.of_uint <$> NilZero.uint_of_string (toString n) = Some n.
Proof.
  split; [|split; [by destruct (badgeDisplayType _); auto|apply toString_decimal]].
  rewrite listener_badge. unfold updateBadge, taskCount.
  destruct (taskFetchFailureReason s); [done|]. simpl.
  do 2 f_equal. case_bool_decide as Hc.
  - by rewrite Hc.
  - by destruct (match badgeDisplayType _ with total => _ | filtered => _ end).
Qed.

(** *** Client configuration *)

Lemma listen_cons s rest b :
  (listen (s :: rest) b).1 = (listen rest (listener s b).1).1.
Proof.
  simpl. destruct (listener s b) as [b' e]. simpl.
  by destruct (listen rest b').
Qed.

Lemma reconfigure_initialized s b :
  didInitializeSettings (reconfigure s b).1
  = bool_decide (requestedSettings s ≠ apiSettings b) || didInitializeSettings b.
Proof. unfold reconfigure, updateSettings. by case_bool_decide. Qed.

Lemma first_snapshot_differs s : requestedSettings s ≠ apiSettings started.
Proof. done. Qed.

Lemma listen_initialized snapshots b :
  didInitializeSettings b = true →
  didInitializeSettings (listen snapshots b).1 = true.
Proof.
  revert b. induction snapshots as [|s rest IH]; intros b Hb; [done|].
  rewrite listen_cons. apply IH.
  destruct (listener_client s b) as (_ & -> & _).
  rewrite reconfigure_initialized, Hb. apply orb_true_r.
Qed.

(** The script has been through a reconfiguration as soon as it has seen
    one snapshot. *)
Lemma started_initialized earlier :
  didInitializeSettings (listen earlier started).1 = bool_decide (earlier ≠ []).
Proof.
  destruct earlier as [|s rest]; [done|].
  rewrite listen_cons, bool_decide_eq_true_2 by done.
  apply listen_initialized.
  destruct (listener_client s started) as (_ & -> & _).
  rewrite reconfigure_initialized.
  by rewrite bool_decide_eq_true_2 by apply first_snapshot_differs.
Qed.

(** C4.  The configuration a snapshot asks for is the host URL of its
    connection settings, their user name, their password and the
    DownloadStation session.  After any snapshots, on a snapshot that
    asks for a configuration other than the one the client has (another
    host, user name or password), the client takes exactly that
    configuration and the cached tasks are cleared, with a poll chained
    on the clearing exactly when this is not the first snapshot; on a
    snapshot that asks for the configuration the client has, the
    configuration stays and nothing is cleared.  The first snapshot
    always differs: it is applied, the cache is cleared, and this branch
    chains no poll. *)
Theorem reconfiguration_and_repoll earlier s :
  let b := (listen earlier started).1 in
  let asked :=
    {| baseUrl := getHostUrl (connection (settings s));
       account := Some (username (connection (settings s)));
       passwd := Some (password (connection (settings s)));
       session := Some DownloadStation |} in
  (asked ≠ apiSettings b →
     apiSettings (listener s b).1 = asked
     ∧ List.filter isCacheEffect (listener s b).2
       = [clearCachedTasks (bool_decide (earlier ≠ []))])
  ∧ (asked = apiSettings b →
       apiSettings (listener s b).1 = apiSettings b
       ∧ List.filter isCacheEffect (listener s b).2 = [])
  ∧ (earlier = [] → asked ≠ apiSettings b).
Proof.
  intros b asked. destruct (listener_client s b) as (-> & _ & ->).
  pose proof (started_initialized earlier) as Hinit. fold b in Hinit.
  change asked with (requestedSettings s).
  unfold reconfigure, updateSettings. split; [|split].
  - intros Hne. rewrite bool_decide_eq_true_2 by done. simpl.
    by rewrite Hinit.
  - intros Heq. by rewrite bool_decide_eq_false_2 by auto.
  - intros ->. apply first_snapshot_differs.
Qed.

(** *** The context menu *)

(** C8, amended.  When the click carries no link URL and no source URL
    and its selection text is not empty, the text is split at line feeds,
    every line is trimmed, and the lines that start with a downloadable
    protocol are kept in order: if none is left, the failure "not a valid
    URL" is notified and nothing is dispatched; otherwise exactly those
    URLs are dispatched. *)
Theorem selection_bulk_add data b text :
  truthy (linkUrl data) = false →
  truthy (srcUrl data) = false →
  selectionText data = Some text →
  text ≠ [] →
  let urls :=
    List.filter
      (λ url, startsWithAnyProtocol url ALL_DOWNLOADABLE_PROTOCOLS)
      (List.map trim (split text)) in
  onclick data b
  = match urls with
    | [] =>
        [notify (getMessage "Failed_to_add_download")
           (getMessage "Selected_text_is_not_a_valid_URL") (Some "failure")]
    | _ :: _ =>
        [addDownloadTasksAndPoll (showNonErrorNotifications b) urls]
    end.
Proof.
  intros Hlink Hsrc Hsel Htext urls. unfold onclick.
  rewrite Hlink, Hsrc, Hsel. destruct text as [|c text]; [done|]. simpl.
  fold (selectedUrls (c :: text)). unfold selectedUrls. fold urls.
  by destruct urls.
Qed.

(** C10.  A click that carries a link URL dispatches that URL alone, as
    it is; one that carries no link URL but a source URL dispatches the
    source URL alone, as it is; one that carries no link URL, no source
    URL and no selection text notifies the failure "URL is empty or
    missing" and dispatches nothing. *)
Theorem link_or_source_dispatched data b :
  (truthy (linkUrl data) = true →
     ∃ url, linkUrl data = Some url
       ∧ onclick data b
         = [addDownloadTasksAndPoll (showNonErrorNotifications b) [url]])
  ∧ (truthy (linkUrl data) = false → truthy (srcUrl data) = true →
     ∃ url, srcUrl data = Some url
       ∧ onclick data b
         = [addDownloadTasksAndPoll (showNonErrorNotifications b) [url]])
  ∧ (truthy (linkUrl data) = false → truthy (srcUrl data) = false →
     truthy (selectionText data) = false →
     onclick data b
     = [notify (getMessage "Failed_to_add_download")
          (getMessage "URL_is_empty_or_missing") (Some "failure")]).
Proof.
  unfold onclick. split; [|split].
  - intros Hlink. rewrite Hlink.
    destruct (linkUrl data) as [url|]; [|done]. by exists url.
  - intros Hlink Hsrc. rewrite Hlink, Hsrc.
    destruct (srcUrl data) as [url|]; [|done]. by exists url.
  - by intros -> -> ->.
Qed.

End Facts.

(** *** The claims at concrete inputs *)

Import Samples.

(** A and B were seen finished; the snapshot has A, B and C finished and
    D downloading: one notification, for C. *)
Lemma completion_notifications_witness :
  finishedTaskIds (listener (fetched [taskA; taskB; taskC; taskD]) seenAB).1
  = Some (list_to_set ["A"; "B"; "C"])
  ∧ notified (listener (fetched [taskA; taskB; taskC; taskD]) seenAB).2
    = [("c.iso", "Download_finished")].
Proof.
  assert (NoDup (List.map id (tasks (fetched [taskA; taskB; taskC; taskD]))))
    as Hnd by (apply (bool_decide_unpack _); vm_compute; exact I).
  assert (START_TIME < 2000)%Z as Hlt by (vm_compute; reflexivity).
  destruct (completion_notifications (fetched [taskA; taskB; taskC; taskD])
              seenAB 2000 eq_refl Hlt eq_refl Hnd) as [Hset Hnote].
  split; [exact Hset|].
  change (finishedTaskIds seenAB) with (Some ({[ "A"; "B" ]} : gset string))
    in Hnote.
  change (enableCompletionNotifications _) with true in Hnote.
  destruct Hnote as (-> & _). vm_compute. reflexivity.
Defined.

(** The first snapshot seeds the stored set and notifies nothing. *)
Example first_snapshot_seeds :
  finishedTaskIds (listener (fetched [taskA; taskB; taskD]) started).1
  = Some (list_to_set ["A"; "B"])
  ∧ notified (listener (fetched [taskA; taskB; taskD]) started).2 = [].
Proof. split; vm_compute; reflexivity. Qed.

(** Before any fetch the stored set stays undefined. *)
Lemma guard_failure_keeps_baseline_witness :
  finishedTaskIds (listener unfetched started).1 = None
  ∧ notified (listener unfetched started).2 = [].
Proof.
  apply (guard_failure_keeps_baseline unfetched started).
  left. reflexivity.
Defined.

Example failed_fetch_keeps_baseline :
  finishedTaskIds (listener (failed [taskA; taskB; taskC]) seenAB).1
  = Some {[ "A"; "B" ]}
  ∧ notified (listener (failed [taskA; taskB; taskC]) seenAB).2 = [].
Proof. split; vm_compute; reflexivity. Qed.

(** Five tasks in mode "total" show "5", no task shows nothing, a failed
    fetch shows the disabled icon. *)
Example badge_five :
  List.filter isBadgeEffect
    (listener (fetched [taskA; taskB; taskC; taskD; taskE]) started).2
  = [setIcon normalIcon; setBadgeText "5";
     setBadgeBackgroundColor [0; 217; 0; 255]%Z].
Proof. vm_compute. reflexivity. Qed.

Example badge_none :
  List.filter isBadgeEffect (listener (fetched []) started).2
  = [setIcon normalIcon; setBadgeText "";
     setBadgeBackgroundColor [0; 217; 0; 255]%Z].
Proof. vm_compute. reflexivity. Qed.

Example badge_filtered :
  List.filter isBadgeEffect (listener moved started).2
  = [setIcon normalIcon; setBadgeText "1";
     setBadgeBackgroundColor [0; 217; 0; 255]%Z].
Proof. vm_compute. reflexivity. Qed.

Example badge_failed :
  List.filter isBadgeEffect (listener (failed [taskA]) started).2
  = [setIcon disabledIcon; setBadgeText "";
     setBadgeBackgroundColor [217; 0; 0; 255]%Z].
Proof. vm_compute. reflexivity. Qed.

(** After a first snapshot, a snapshot that differs only by the password
    reconfigures the client with the new password and polls once the
    cache is cleared. *)
Lemma reconfiguration_and_repoll_witness :
  apiSettings (listener rekeyed (listen [unfetched] started).1).1
  = {| baseUrl := Some "https://nas:5001"; account := Some "admin";
       passwd := Some "changed"; session := Some DownloadStation |}
  ∧ List.filter isCacheEffect
      (listener rekeyed (listen [unfetched] started).1).2
    = [clearCachedTasks true].
Proof.
  refine (proj1 (reconfiguration_and_repoll [unfetched] rekeyed) _).
  vm_compute. discriminate.
Defined.

(** So do another user name and another host; the same settings again
    do not. *)
Example credentials_and_host_reconfigure :
  (listener renamed (listen [unfetched] started).1).2
  !! 0 = Some (clearCachedTasks true)
  ∧ apiSettings (listener renamed (listen [unfetched] started).1).1
    = {| baseUrl := Some "https://nas:5001"; account := Some "guest";
         passwd := Some "secret"; session := Some DownloadStation |}
  ∧ apiSettings (listener moved (listen [unfetched] started).1).1
    = {| baseUrl := Some "https://nas2:5001"; account := Some "admin";
         passwd := Some "secret"; session := Some DownloadStation |}
  ∧ List.filter isCacheEffect
      (listener moved (listen [unfetched] started).1).2
    = [clearCachedTasks true]
  ∧ apiSettings (listen [unfetched] started).1
    = {| baseUrl := Some "https://nas:5001"; account := Some "admin";
         passwd := Some "secret"; session := Some DownloadStation |}.
Proof. repeat split; vm_compute; reflexivity. Qed.

Example first_snapshot_no_poll :
  List.filter isCacheEffect (listener unfetched started).2
  = [clearCachedTasks false]
  ∧ List.filter isCacheEffect
      (listener unfetched (listen [unfetched] started).1).2
    = [].
Proof. split; vm_compute; reflexivity. Qed.

(** The selection of section 8 dispatches its two URLs. *)
Lemma selection_bulk_add_witness :
  onclick (selected selection) started
  = [addDownloadTasksAndPoll true [fromAscii "http://a"; fromAscii "ftp://b"]].
Proof.
  refine (selection_bulk_add (selected selection) started selection
            eq_refl eq_refl eq_refl _).
  vm_compute. discriminate.
Defined.

Example selection_without_url :
  onclick (selected (fromAscii "not-a-url")) started
  = [notify "Failed_to_add_download" "Selected_text_is_not_a_valid_URL"
       (Some "failure")].
Proof. vm_compute. reflexivity. Qed.

(** C8 as stated fails at the empty selection text: splitting, trimming
    and filtering it leaves no URL, but the notification is "URL is empty
    or missing", not "not a valid URL".  It also fails when the click
    carries a link URL besides the selection: the link URL is dispatched,
    not the URLs of the selection. *)
Lemma selection_bulk_add_counterexample :
  List.filter
    (λ url, startsWithAnyProtocol url ALL_DOWNLOADABLE_PROTOCOLS)
    (List.map trim (split [])) = []
  ∧ onclick (selected []) started
    = [notify "Failed_to_add_download" "URL_is_empty_or_missing"
         (Some "failure")]
  ∧ onclick (selected []) started
    ≠ [notify "Failed_to_add_download" "Selected_text_is_not_a_valid_URL"
         (Some "failure")]
  ∧ selectionText linked = Some selection
  ∧ List.filter
      (λ url, startsWithAnyProtocol url ALL_DOWNLOADABLE_PROTOCOLS)
      (List.map trim (split selection))
    = [fromAscii "http://a"; fromAscii "ftp://b"]
  ∧ onclick linked started
    = [addDownloadTasksAndPoll true [fromAscii " gopher://x "]].
Proof.
  split; [vm_compute; reflexivity|]. split; [vm_compute; reflexivity|].
  split; [vm_compute; discriminate|].
  repeat split; vm_compute; reflexivity.
Qed.

(** A link URL goes out as it is, spaces and all, before the source URL
    and the selection; a source URL alone goes out as it is; a click on
    nothing is a failure. *)
Lemma link_or_source_dispatched_witness :
  onclick linked started
  = [addDownloadTasksAndPoll true [fromAscii " gopher://x "]]
  ∧ onclick onVideo started
    = [addDownloadTasksAndPoll true [fromAscii "http://media"]]
  ∧ onclick onNothing started
    = [notify "Failed_to_add_download" "URL_is_empty_or_missing"
         (Some "failure")].
Proof.
  split; [|split].
  - destruct (proj1 (link_or_source_dispatched linked started) eq_refl)
      as (url & [= <-] & ->). reflexivity.
  - destruct (proj1 (proj2 (link_or_source_dispatched onVideo started))
                eq_refl eq_refl) as (url & [= <-] & ->). reflexivity.
  - exact (proj2 (proj2 (link_or_source_dispatched onNothing started))
             eq_refl eq_refl eq_refl).
Defined.

End BackgroundFacts.

(** ** The life of the path selector *)

Module PathSelectorLifecycle.
Import DirectoryTree DirectoryTreeFacts PathSelector PathSelectorFacts.
Import PathSelectorView.

Section Facts.
Context `{ErrorMessages}.

(** *** The root *)

Lemma update_keeps_node t target newChildren :
  path (recursivelyUpdateDirectoryTree t target newChildren) = path t
  ∧ name (recursivelyUpdateDirectoryTree t target newChildren) = name t.
Proof.
  destruct t as [n p c]; simpl. case_decide; [done|]. by destruct c.
Qed.

Lemma update_root t newChildren :
  children (recursivelyUpdateDirectoryTree t (path t) newChildren)
  = newChildren.
Proof. destruct t as [n p c]; simpl. by rewrite decide_True. Qed.

Lemma start_Rooted m w :
  (∀ c, path (directoryTree (after (m c))) = path (directoryTree c)
        ∧ name (directoryTree (after (m c))) = name (directoryTree c)) →
  Rooted w → Rooted (start m w).
Proof.
  intros Hm [Hp Hn]. destruct (Hm (component w)) as [Hp' Hn'].
  split; simpl; congruence.
Qed.

Lemma loadTopLevelDirectories_node c :
  path (directoryTree (after (loadTopLevelDirectories c)))
  = path (directoryTree c)
  ∧ name (directoryTree (after (loadTopLevelDirectories c)))
    = name (directoryTree c).
Proof. simpl. apply update_keeps_node. Qed.

Lemma loadNestedDirectory_node p c :
  path (directoryTree (after (loadNestedDirectory p c)))
  = path (directoryTree c)
  ∧ name (directoryTree (after (loadNestedDirectory p c)))
    = name (directoryTree c).
Proof. unfold loadNestedDirectory. by case_match. Qed.

Lemma resume_node p r c c' :
  resume p r c = Some c' →
  path (directoryTree c') = path (directoryTree c)
  ∧ name (directoryTree c') = name (directoryTree c).
Proof.
  unfold resume, loadTopLevelDirectories_resume, loadNestedDirectory_resume.
  destruct (call p), r; try done; intros [= <-];
    case_match; try done; rewrite updateTreeWithResponse_eq;
    apply update_keeps_node.
Qed.

Lemma notifySettingsChange_Rooted client w :
  Rooted w → Rooted (notifySettingsChange client w).
Proof.
  unfold notifySettingsChange.
  generalize (List.filter (λ s, bool_decide (sub_client s = client)) (listeners w)).
  intros l. revert w. induction l as [|s l IH]; intros w Hw; simpl; [done|].
  apply IH, start_Rooted; [apply loadTopLevelDirectories_node|done].
Qed.

Lemma unsubscribeFromClient_Rooted w :
  Rooted w → Rooted (unsubscribeFromClient w).
Proof.
  unfold Rooted. by destruct (unsubscribeFromClient_frame w) as (_ & _ & -> & _).
Qed.

Lemma subscribeToClient_Rooted client w :
  Rooted w → Rooted (subscribeToClient client w).
Proof.
  unfold Rooted.
  by destruct (subscribeToClient_frame client w) as (_ & _ & -> & _).
Qed.

Lemma step_Rooted e w w' : step e w = Some w' → Rooted w → Rooted w'.
Proof.
  destruct e as [| |nextClient|client|p|i response]; simpl.
  - intros [= <-] Hw. unfold componentDidMount.
    apply start_Rooted; [apply loadTopLevelDirectories_node|].
    by apply subscribeToClient_Rooted.
  - intros [= <-] Hw. by apply unsubscribeFromClient_Rooted.
  - intros [= <-] Hw.
    assert (Rooted (componentWillReceiveProps nextClient w)) as Hr; [|exact Hr].
    unfold componentWillReceiveProps. case_bool_decide; [|done].
    apply start_Rooted; [apply loadTopLevelDirectories_node|].
    by apply subscribeToClient_Rooted, unsubscribeFromClient_Rooted.
  - intros [= <-] Hw. by apply notifySettingsChange_Rooted.
  - intros [= <-] Hw.
    apply start_Rooted; [apply loadNestedDirectory_node|done].
  - destruct (inFlight w !! i) as [p|] eqn:Ep; simpl; [|done].
    destruct (resume p response (component w)) as [c|] eqn:Ec; simpl; [|done].
    intros [= <-] [Hp Hn]. destruct (resume_node _ _ _ _ Ec) as [Hp' Hn'].
    split; simpl; congruence.
Qed.

Lemma reachable_Rooted client es w :
  run es (initial client) = Some w → Rooted w.
Proof.
  assert (∀ w0, Rooted w0 → run es w0 = Some w → Rooted w) as Hgen.
  { induction es as [|e es IH]; intros w0 H0; simpl.
    - by intros [= <-].
    - destruct (step e w0) as [w1|] eqn:Es; simpl; [|done].
      apply IH. by eapply step_Rooted. }
  apply Hgen. done.
Qed.

(** *** Registrations *)

(** X1.  Through mounts, unmounts, changes of client, settings changes,
    loads and responses in any order, the component never has more than
    one registration with the clients, and the registrations are exactly
    the one it holds the means to remove. *)
Theorem at_most_one_registration client es w :
  run es (initial client) = Some w →
  (length (listeners w) ≤ 1)%nat
  ∧ ∀ s, s ∈ listeners w ↔ unsubscribeCallback (component w) = Some s.
Proof.
  intros Hrun. pose proof (reachable_Single _ _ _ Hrun) as Hs.
  unfold SingleSubscription in Hs. rewrite Hs.
  destruct (unsubscribeCallback (component w)) as [s0|]; simpl.
  - split; [lia|]. intros s. rewrite list_elem_of_singleton.
    split; [by intros ->|by intros [= ->]].
  - split; [lia|]. intros s. split; [by intros ?%elem_of_nil|done].
Qed.

(** X2.  Once the component is unmounted, a settings change of any
    client leaves it as it is: no reload, no call in flight. *)
Theorem unmounted_ignores_settings_change client es w w' changed :
  run es (initial client) = Some w →
  step WillUnmount w = Some w' →
  step (SettingsChange changed) w' = Some w'.
Proof.
  intros Hrun Hun. destruct (unmount_releases _ _ _ _ Hrun Hun) as [Hl _].
  simpl. unfold notifySettingsChange. by rewrite Hl.
Qed.

(** X3.  While the component holds a registration, a settings change of
    the client it is registered with resets the root to unloaded and
    puts exactly one listing of the shares in flight, with the next
    version of the root path; a settings change of any other client
    changes nothing. *)
Theorem settings_change_reloads_once client es w s :
  run es (initial client) = Some w →
  unsubscribeCallback (component w) = Some s →
  (∃ w', step (SettingsChange (sub_client s)) w = Some w'
     ∧ children (directoryTree (component w')) = Unloaded
     ∧ inFlight w'
       = (inFlight w
          ++ [ {| call := list_share (props_client (component w)) "name";
                  stashedRequestVersion :=
                    (requestVersion (component w) ROOT_PATH + 1)%N |} ])%list
     ∧ requestVersion (component w') ROOT_PATH
       = (requestVersion (component w) ROOT_PATH + 1)%N
     ∧ listeners w' = listeners w)
  ∧ ∀ other, other ≠ sub_client s → step (SettingsChange other) w = Some w.
Proof.
  intros Hrun Hcb. pose proof (reachable_Single _ _ _ Hrun) as Hs.
  unfold SingleSubscription in Hs. rewrite Hcb in Hs.
  destruct (reachable_Rooted _ _ _ Hrun) as [Hroot _].
  split.
  - eexists. split.
    + simpl. unfold notifySettingsChange. rewrite Hs. simpl.
      rewrite bool_decide_eq_true_2 by done. simpl. reflexivity.
    + simpl. rewrite <- Hroot at 1. rewrite update_root.
      split; [done|]. split; [done|]. split; [|done].
      by rewrite requestVersion_set, decide_True.
  - intros other Hne. simpl. unfold notifySettingsChange. rewrite Hs. simpl.
    by rewrite bool_decide_eq_false_2 by auto.
Qed.

(** X4.  From the moment [loadTopLevelDirectories] is called until its
    listing is applied the root is unloaded, so a request to load a
    nested directory made right then only logs the programmer error: no
    version is allocated and nothing is put in flight. *)
Theorem reload_blocks_nested_loads client es w nested :
  run es (initial client) = Some w →
  let w1 := start loadTopLevelDirectories w in
  children (directoryTree (component w1)) = Unloaded
  ∧ step (RequestLoad nested) w1
    = Some {| component := component w1; listeners := listeners w1;
              nextToken := nextToken w1; inFlight := inFlight w1;
              console := console w1 ++ [programmerError] |}.
Proof.
  intros Hrun w1. destruct (reachable_Rooted _ _ _ Hrun) as [Hroot _].
  assert (children (directoryTree (component w1)) = Unloaded) as Hun.
  { subst w1. simpl. rewrite <- Hroot at 1. by rewrite update_root. }
  split; [done|]. simpl. unfold start at 1, loadNestedDirectory.
  rewrite Hun. simpl. by rewrite app_nil_r.
Qed.

(** *** Calls in flight *)

Lemma Ordered_snoc calls q :
  Ordered calls →
  (∀ p, p ∈ calls → pendingPath q = pendingPath p →
     (stashedRequestVersion p < stashedRequestVersion q)%N) →
  Ordered (calls ++ [q]).
Proof.
  induction calls as [|p calls IH]; simpl; intros Hord Hq.
  - split; [|done]. by intros ? ?%elem_of_nil.
  - destruct Hord as [Hp Hord]. split.
    + intros q' [Hin|Heq%list_elem_of_singleton]%elem_of_app Hpath.
      * by apply Hp.
      * subst q'. apply Hq; [apply list_elem_of_here|done].
    + apply IH; [done|]. intros p' Hin. by apply Hq, list_elem_of_further.
Qed.

Lemma Ordered_delete i calls : Ordered calls → Ordered (delete i calls).
Proof.
  revert i. induction calls as [|p calls IH]; intros i; [by destruct i|].
  intros [Hp Hord]. destruct i as [|i]; simpl; [done|].
  split; [|by apply IH]. intros q Hin. apply Hp.
  eapply sublist_subseteq; [apply sublist_delete|done].
Qed.

Lemma Ordered_lookup calls i j p q :
  Ordered calls → (i < j)%nat →
  calls !! i = Some p → calls !! j = Some q →
  pendingPath q = pendingPath p →
  (stashedRequestVersion p < stashedRequestVersion q)%N.
Proof.
  revert i j. induction calls as [|p0 calls IH]; intros i j; [done|].
  intros [Hp Hord] Hlt Hi Hj Hpath.
  destruct j as [|j]; [lia|]. simpl in Hj. destruct i as [|i]; simpl in Hi.
  - injection Hi as ->. apply Hp; [|done]. by eapply list_elem_of_lookup_2.
  - apply (IH i j); [done|lia|done..].
Qed.

Lemma start_Ordered m w :
  Raising m → (∀ c, length (issued (m c)) ≤ 1)%nat →
  Versioned w → Ordered (inFlight w) → Ordered (inFlight (start m w)).
Proof.
  intros Hm Hone Hv Hord. simpl.
  destruct (Hm (component w)) as [_ Hnew]. specialize (Hone (component w)).
  destruct (issued (m (component w))) as [|q [|q' rest]]; simpl in Hone;
    [by rewrite app_nil_r| |lia].
  apply Ordered_snoc; [done|]. intros p Hp Hpath.
  specialize (Hv p Hp). specialize (Hnew q (list_elem_of_here _ _)).
  rewrite Hpath in Hnew. lia.
Qed.

Lemma loadTopLevelDirectories_one c :
  (length (issued (loadTopLevelDirectories c)) ≤ 1)%nat.
Proof. done. Qed.

Lemma loadNestedDirectory_one p c :
  (length (issued (loadNestedDirectory p c)) ≤ 1)%nat.
Proof. unfold loadNestedDirectory. case_match; simpl; lia. Qed.

Lemma notifySettingsChange_Ordered client w :
  Versioned w → Ordered (inFlight w) →
  Ordered (inFlight (notifySettingsChange client w)).
Proof.
  unfold notifySettingsChange.
  generalize (List.filter (λ s, bool_decide (sub_client s = client)) (listeners w)).
  intros l. revert w. induction l as [|s l IH]; intros w Hv Hord; simpl; [done|].
  apply IH.
  - eapply Versioned_Extends;
      [done|apply start_Extends, loadTopLevelDirectories_Raising].
  - apply start_Ordered;
      [apply loadTopLevelDirectories_Raising
      |apply loadTopLevelDirectories_one|done..].
Qed.

Lemma step_Ordered e w w' :
  step e w = Some w' → Versioned w → Ordered (inFlight w) →
  Ordered (inFlight w').
Proof.
  destruct e as [| |nextClient|client|p|i response]; simpl.
  - intros [= <-] Hv Hord. unfold componentDidMount.
    destruct (subscribeToClient_frame (props_client (component w)) w)
      as (Hver & Hin & _).
    apply start_Ordered;
      [apply loadTopLevelDirectories_Raising
      |apply loadTopLevelDirectories_one| |by rewrite Hin].
    intros q Hq. rewrite Hin in Hq. unfold requestVersion. rewrite Hver.
    by apply Hv.
  - intros [= <-] Hv Hord.
    change (Ordered (inFlight (unsubscribeFromClient w))).
    by destruct (unsubscribeFromClient_frame w) as (_ & -> & _).
  - intros [= <-] Hv Hord.
    change (Ordered (inFlight (componentWillReceiveProps nextClient w))).
    unfold componentWillReceiveProps. case_bool_decide; [|done].
    destruct (unsubscribeFromClient_frame w) as (Hver1 & Hin1 & _).
    destruct (subscribeToClient_frame
                (props_client (component (unsubscribeFromClient w)))
                (unsubscribeFromClient w)) as (Hver2 & Hin2 & _).
    apply start_Ordered;
      [apply loadTopLevelDirectories_Raising
      |apply loadTopLevelDirectories_one| |by rewrite Hin2, Hin1].
    intros q Hq. rewrite Hin2, Hin1 in Hq. unfold requestVersion.
    rewrite Hver2, Hver1. by apply Hv.
  - intros [= <-]. apply notifySettingsChange_Ordered.
  - intros [= <-]. apply start_Ordered;
      [apply loadNestedDirectory_Raising|apply loadNestedDirectory_one].
  - destruct (inFlight w !! i) as [p|] eqn:Ep; simpl; [|done].
    destruct (resume p response (component w)) as [c|] eqn:Ec; simpl; [|done].
    intros [= <-] Hv Hord. simpl. by apply Ordered_delete.
Qed.

Lemma reachable_Ordered client es w :
  run es (initial client) = Some w → Ordered (inFlight w).
Proof.
  assert (∀ w0, Versioned w0 → Ordered (inFlight w0) → run es w0 = Some w →
                Ordered (inFlight w)) as Hgen.
  { induction es as [|e es IH]; intros w0 Hv Hord; simpl.
    - by intros [= <-].
    - destruct (step e w0) as [w1|] eqn:Es; simpl; [|done].
      apply IH.
      + eapply Versioned_Extends; [done|by eapply step_Extends].
      + by eapply step_Ordered. }
  apply Hgen; [apply initial_Versioned|done].
Qed.

(** X5.  At every moment the calls in flight for one path carry
    strictly increasing versions in the order they were issued; any call
    with a later call for its path behind it is already stale, so of the
    calls in flight for a path only the last can still be applied. *)
Theorem in_flight_versions_increase client es w i j p q :
  run es (initial client) = Some w →
  (i < j)%nat →
  inFlight w !! i = Some p →
  inFlight w !! j = Some q →
  pendingPath p = pendingPath q →
  (stashedRequestVersion p < stashedRequestVersion q)%N
  ∧ isCurrent (component w) (pendingPath p) (stashedRequestVersion p) = false.
Proof.
  intros Hrun Hlt Hi Hj Hpath.
  pose proof (Ordered_lookup _ _ _ _ _ (reachable_Ordered _ _ _ Hrun)
                Hlt Hi Hj (eq_sym Hpath)) as Hord.
  split; [done|].
  pose proof (reachable_Versioned _ _ _ Hrun q
                (list_elem_of_lookup_2 _ _ _ Hj)) as Hq.
  apply not_true_is_false. intros Hcur%isCurrent_true.
  rewrite Hpath in Hcur. lia.
Qed.

(** X15.  With the root loaded and a directory present in the tree, a
    request to load it followed at once by the response of its listing
    always applies that response: the directory gets the children the
    response stands for, the call is gone from the calls in flight, and
    the version of the path has gone up by one. *)
Theorem nested_listing_applied w nested response :
  isLoadedChild (children (directoryTree (component w))) = true →
  is_Some (childrenAt nested (directoryTree (component w))) →
  ∃ w1 w2,
    step (RequestLoad nested) w = Some w1
    ∧ step (Resolve (length (inFlight w)) (ListResponse response)) w1
      = Some w2
    ∧ childrenAt nested (directoryTree (component w2))
      = Some (resultChildren parseFiles response)
    ∧ inFlight w2 = inFlight w
    ∧ requestVersion (component w2) nested
      = (requestVersion (component w) nested + 1)%N.
Proof.
  intros Hloaded Hpresent. eexists _, _. split; [reflexivity|].
  unfold start, loadNestedDirectory. rewrite Hloaded. simpl.
  rewrite lookup_app_r, Nat.sub_diag by lia. simpl.
  unfold loadNestedDirectory_resume, isCurrent. simpl.
  rewrite lookup_insert_eq, bool_decide_eq_true_2 by done.
  rewrite updateTreeWithResponse_eq. simpl.
  split; [reflexivity|]. simpl. split; [by apply update_present|].
  split.
  - rewrite delete_middle, app_nil_r. reflexivity.
  - unfold requestVersion. simpl. by rewrite lookup_insert_eq.
Qed.

(** *** From mounting to the first view *)

Section View.
Context `{Background.I18n}.

(** X6.  A component that is mounted shows the loading message with one
    listing of the shares in flight; when that listing resolves, whatever
    the response, it is applied and nothing stays in flight: a connection
    failure or an error code shows the translated message, a listing
    without shares shows the message for no directories, and a listing
    with shares shows one row for each share, in order, keyed by the
    path of the share and not yet loaded. *)
Theorem first_listing_rendered client response selected :
  ∃ mounted listed,
    run [DidMount] (initial client) = Some mounted
    ∧ renderContent selected (component mounted)
      = NoContent (Background.getMessage "Loading_directories")
    ∧ listeners mounted = [ {| sub_client := client; sub_token := 0 |} ]
    ∧ inFlight mounted
      = [ {| call := list_share client "name"; stashedRequestVersion := 1 |} ]
    ∧ step (Resolve 0 (ListShareResponse response)) mounted = Some listed
    ∧ inFlight listed = []
    ∧ renderContent selected (component listed)
      = match response with
        | Failure failure =>
            NoContentError (errorMessageFromConnectionFailure failure)
        | ErrorResponse code =>
            NoContentError (errorMessageFromCode code "FileStation")
        | SuccessResponse data =>
            match shares data with
            | [] => NoContent (Background.getMessage "No_directories")
            | _ :: _ =>
                Rows
                  (List.map
                     (λ d, {| key := share_path d;
                              file := mkFile (share_name d) (share_path d)
                                        Unloaded;
                              selectedPath := selected |})
                     (shares data))
            end
        end.
Proof.
  eexists _, _. split; [reflexivity|]. split; [reflexivity|].
  split; [reflexivity|]. split; [reflexivity|]. split.
  - simpl. unfold loadTopLevelDirectories_resume, isCurrent. simpl.
    rewrite lookup_insert_eq, bool_decide_eq_true_2 by done. reflexivity.
  - split; [reflexivity|]. simpl. rewrite updateTreeWithResponse_eq.
    unfold renderContent. simpl.
    destruct response as [failure|code|data]; simpl; try done.
    unfold parseShares. destruct (shares data) as [|d ds]; [done|].
    simpl. by rewrite List.map_map.
Qed.

End View.

End Facts.

(** *** The properties at concrete inputs *)

Import Samples.

Lemma at_most_one_registration_witness :
  ∃ w, run [DidMount; ReceiveProps 2; SettingsChange 1; ReceiveProps 3]
         (initial 1) = Some w
    ∧ (length (listeners w) ≤ 1)%nat.
Proof.
  eexists. split; [vm_compute; reflexivity|].
  refine (proj1 (at_most_one_registration 1
            [DidMount; ReceiveProps 2; SettingsChange 1; ReceiveProps 3]
            _ _)).
  vm_compute; reflexivity.
Defined.

Lemma unmounted_ignores_settings_change_witness :
  ∃ w w', run [DidMount] (initial 1) = Some w
    ∧ step WillUnmount w = Some w'
    ∧ step (SettingsChange 1) w' = Some w'.
Proof.
  eexists _, _. split; [vm_compute; reflexivity|].
  split; [vm_compute; reflexivity|].
  refine (unmounted_ignores_settings_change 1 [DidMount] _ _ 1 _ _);
    vm_compute; reflexivity.
Defined.

Lemma settings_change_reloads_once_witness :
  (∃ w', step (SettingsChange 1) browsing = Some w'
     ∧ inFlight w'
       = [ {| call := list_share 1 "name"; stashedRequestVersion := 2 |} ])
  ∧ step (SettingsChange 2) browsing = Some browsing.
Proof.
  assert (run [DidMount;
               Resolve 0 (ListShareResponse (SuccessResponse twoShares))]
            (initial 1) = Some browsing) as Hrun by (vm_compute; reflexivity).
  destruct (settings_change_reloads_once 1 _ browsing
              {| sub_client := 1; sub_token := 0 |} Hrun eq_refl)
    as [(w' & Hstep & _ & Hin & _) Hother].
  split.
  - exists w'. split; [exact Hstep|]. rewrite Hin. vm_compute. reflexivity.
  - apply Hother. vm_compute. discriminate.
Defined.

Lemma reload_blocks_nested_loads_witness :
  inFlight <$> step (RequestLoad "/video")
                 (start loadTopLevelDirectories browsing)
  = Some [ {| call := list_share 1 "name"; stashedRequestVersion := 2 |} ].
Proof.
  assert (run [DidMount;
               Resolve 0 (ListShareResponse (SuccessResponse twoShares))]
            (initial 1) = Some browsing) as Hrun by (vm_compute; reflexivity).
  destruct (reload_blocks_nested_loads 1 _ browsing "/video" Hrun)
    as [_ ->].
  vm_compute. reflexivity.
Defined.

Lemma nested_listing_applied_witness :
  ∃ w1 w2,
    step (RequestLoad "/video") browsing = Some w1
    ∧ step (Resolve 0 (ListResponse (SuccessResponse
              {| files := [ {| file_name := "films";
                               file_path := "/video/films" |} ] |})))
        w1 = Some w2
    ∧ childrenAt "/video" (directoryTree (component w2))
      = Some (Loaded [mkFile "films" "/video/films" Unloaded]).
Proof.
  assert (is_Some (childrenAt "/video" (directoryTree (component browsing))))
    as Hpresent by (vm_compute; eauto).
  destruct (nested_listing_applied browsing "/video"
              (SuccessResponse
                 {| files := [ {| file_name := "films";
                                  file_path := "/video/films" |} ] |})
              eq_refl Hpresent)
    as (w1 & w2 & H1 & H2 & H3 & _).
  by exists w1, w2.
Defined.

Lemma in_flight_versions_increase_witness :
  ∃ w, run [DidMount; SettingsChange 1] (initial 1) = Some w
    ∧ isCurrent (component w) "/" 1 = false.
Proof.
  eexists. split; [vm_compute; reflexivity|].
  refine (proj2 (in_flight_versions_increase 1 [DidMount; SettingsChange 1]
            _ 0 1
            {| call := list_share 1 "name"; stashedRequestVersion := 1 |}
            {| call := list_share 1 "name"; stashedRequestVersion := 2 |}
            _ _ _ _ _));
    first [lia | vm_compute; reflexivity].
Defined.

End PathSelectorLifecycle.

(** ** The life of the background script *)

Module BackgroundLifecycle.
Import Background BackgroundFacts PollingTimer.

Section Facts.
Context `{I18n} `{Protocols} `{Clock} `{StateModule}.

Ltac blocks :=
  unfold reconfigure, updateSettings, resetInterval, cacheFeedbackFlag,
    detectCompletions;
  repeat (case_bool_decide || case_match); simpl in *; try done.

(** *** The context menu *)

(** X7.  A click has exactly one effect: either one dispatch, of a list
    of URLs that is never empty, with the feedback flag of the script,
    or one failure notification; it never does both and never
    dispatches nothing silently. *)
Theorem click_yields_one_effect data b :
  (∃ urls, urls ≠ []
     ∧ onclick data b
       = [addDownloadTasksAndPoll (showNonErrorNotifications b) urls])
  ∨ (∃ message,
       onclick data b
       = [notify (getMessage "Failed_to_add_download") message
            (Some "failure")]).
Proof.
  unfold onclick.
  destruct (truthy (linkUrl data));
    [left; eexists; split; [|reflexivity]; done|].
  destruct (truthy (srcUrl data));
    [left; eexists; split; [|reflexivity]; done|].
  destruct (truthy (selectionText data)); [|right; by eexists].
  destruct (selectedUrls _) as [|url urls] eqn:Eu; simpl.
  - right. by eexists.
  - left. eexists; split; [|reflexivity]; done.
Qed.

Lemma click_flag data b flag urls :
  onclick data b = [addDownloadTasksAndPoll flag urls] →
  flag = showNonErrorNotifications b.
Proof.
  unfold onclick. repeat case_match; intros [= <- _]; done.
Qed.

(** X8.  Every URL taken from a selection is one of its lines with the
    white space at both ends removed and nothing else changed: it starts
    with a downloadable protocol, holds no line feed, and neither begins
    nor ends with white space. *)
Theorem selected_urls_are_trimmed_lines text url :
  url ∈ selectedUrls text →
  startsWithAnyProtocol url ALL_DOWNLOADABLE_PROTOCOLS = true
  ∧ (LF ∉ url)
  ∧ match url with c :: _ => isWhiteSpace c = false | [] => True end
  ∧ match rev url with c :: _ => isWhiteSpace c = false | [] => True end
  ∧ ∃ line front back,
      line ∈ split text
      ∧ line = (front ++ url ++ back)%list
      ∧ Forall (λ c, isWhiteSpace c = true) front
      ∧ Forall (λ c, isWhiteSpace c = true) back.
Proof.
  unfold selectedUrls. intros Hin%list_elem_of_In.
  apply filter_In in Hin as [Hin Hstarts].
  apply in_map_iff in Hin as (line & <- & Hline%list_elem_of_In).
  destruct (trim_spec line) as (front & back & Heq & Hfront & Hback & Hhd & Hlast).
  split; [done|]. split; [|split; [done|split; [done|]]].
  - pose proof (split_no_LF text) as Hno.
    rewrite Forall_forall in Hno. specialize (Hno line Hline).
    intros HLF. apply Hno. rewrite Heq.
    apply elem_of_app. right. apply elem_of_app. by left.
  - by exists line, front, back.
Qed.

(** *** What a snapshot leaves in the script *)

Lemma reconfigure_keeps s b :
  apiSettings (reconfigure s b).1 = requestedSettings s
  ∧ lastNotificationSettings (reconfigure s b).1 = lastNotificationSettings b
  ∧ notificationInterval (reconfigure s b).1 = notificationInterval b.
Proof.
  unfold reconfigure, updateSettings. case_bool_decide as Hne; simpl; [done|].
  by rewrite Hne.
Qed.

Lemma resetInterval_keeps s b :
  lastNotificationSettings (resetInterval s b).1
  = Some (notifications (settings s))
  ∧ showNonErrorNotifications (resetInterval s b).1
    = showNonErrorNotifications b.
Proof.
  unfold resetInterval. case_bool_decide as Hne; [by case_match|].
  by rewrite Hne.
Qed.

Lemma detectCompletions_keeps s b :
  lastNotificationSettings (detectCompletions s b).1
  = lastNotificationSettings b
  ∧ notificationInterval (detectCompletions s b).1 = notificationInterval b
  ∧ showNonErrorNotifications (detectCompletions s b).1
    = showNonErrorNotifications b
  ∧ (fetchedSinceStart s = true →
     finishedTaskIds (detectCompletions s b).1
     = Some (list_to_set (updatedFinishedTaskIds s))).
Proof. unfold detectCompletions. by case_match. Qed.

Lemma listener_settles s b : Settled s (listener s b).1.
Proof.
  destruct (listener_client s b) as (Hapi & _).
  rewrite listener_eq in *. simpl in *.
  set (b1 := (reconfigure s b).1) in *.
  set (b2 := (resetInterval s b1).1) in *.
  destruct (detectCompletions_keeps s (cacheFeedbackFlag s b2))
    as (Hlast & _ & Hshow & Hfin).
  destruct (resetInterval_keeps s b1) as (Hlast2 & _).
  destruct (reconfigure_keeps s b) as (Hapi1 & _).
  unfold Settled. rewrite Hapi, Hlast, Hshow. done.
Qed.

Lemma filter_none {A : Type} (P : A → bool) (l : list A) :
  (∀ x, x ∈ l → P x = false) → List.filter P l = [].
Proof.
  induction l as [|x l IH]; simpl; [done|]. intros Hall.
  rewrite (Hall x) by apply list_elem_of_here.
  apply IH. intros y Hy. by apply Hall, list_elem_of_further.
Qed.

(** Nothing is newly finished with respect to the ids of the snapshot
    itself. *)
Lemma newlyFinished_seen s :
  newlyFinished s (list_to_set (updatedFinishedTaskIds s)) = [].
Proof.
  unfold newlyFinished. apply filter_none. intros i Hi.
  apply negb_false_iff, bool_decide_eq_true. by apply elem_of_list_to_set.
Qed.

Lemma settled_fixed s b : Settled s b → listener s b = (b, updateBadge s).
Proof.
  intros (Hapi & Hlast & Hshow & Hfin). unfold listener.
  assert (reconfigure s b = (b, [])) as ->.
  { unfold reconfigure, updateSettings.
    rewrite bool_decide_eq_false_2 by (rewrite Hapi; auto). by destruct b. }
  assert (resetInterval s b = (b, [])) as ->.
  { unfold resetInterval. by rewrite bool_decide_eq_false_2 by (rewrite Hlast; auto). }
  assert (cacheFeedbackFlag s b = b) as ->.
  { unfold cacheFeedbackFlag. rewrite <- Hshow. by destruct b. }
  assert (detectCompletions s b = (b, [])) as ->.
  { unfold detectCompletions. destruct (fetchedSinceStart s); [|done].
    specialize (Hfin eq_refl). unfold completionNotifications.
    rewrite Hfin, newlyFinished_seen. simpl.
    rewrite <- Hfin. destruct b; simpl.
    by destruct (enableCompletionNotifications _). }
  simpl. by rewrite app_nil_r.
Qed.

(** X9.  Delivering a snapshot a second time changes nothing in the
    script and has no effect beyond drawing the badge again: no cache
    invalidation, no poll, no timer, no notification. *)
Theorem listener_idempotent s b :
  listener s (listener s b).1 = ((listener s b).1, updateBadge s).
Proof. apply settled_fixed, listener_settles. Qed.

Lemma listen_app l1 l2 b :
  (listen (l1 ++ l2) b).1 = (listen l2 (listen l1 b).1).1.
Proof.
  revert b. induction l1 as [|s l1 IH]; intros b; [done|].
  rewrite <- app_comm_cons, !listen_cons. apply IH.
Qed.

Lemma listen_last earlier s b :
  (listen (earlier ++ [s]) b).1 = (listener s (listen earlier b).1).1.
Proof.
  rewrite listen_app. simpl. by destruct (listener s _).
Qed.

(** X10.  However many snapshots came before, after a snapshot the
    client is configured with the host URL, the user name and the
    password of that snapshot's connection settings and with the
    DownloadStation session, the notification settings and the feedback
    flag cached are those of that snapshot, and the script counts as
    initialized. *)
Theorem script_tracks_latest_snapshot earlier s :
  let b := (listen (earlier ++ [s]) started).1 in
  apiSettings b
  = {| baseUrl := getHostUrl (connection (settings s));
       account := Some (username (connection (settings s)));
       passwd := Some (password (connection (settings s)));
       session := Some DownloadStation |}
  ∧ lastNotificationSettings b = Some (notifications (settings s))
  ∧ showNonErrorNotifications b
    = enableFeedbackNotifications (notifications (settings s))
  ∧ didInitializeSettings b = true.
Proof.
  intros b. subst b.
  pose proof (started_initialized (earlier ++ [s])) as Hinit.
  rewrite bool_decide_eq_true_2 in Hinit by (by destruct earlier).
  rewrite listen_last in *.
  destruct (listener_settles s (listen earlier started).1)
    as (Hapi & Hlast & Hshow & _).
  done.
Qed.

(** *** The polling timer *)

Lemma timersAfter_app e1 e2 live :
  timersAfter (e1 ++ e2) live = timersAfter e2 (timersAfter e1 live).
Proof. apply foldl_app. Qed.

Lemma timersAfter_inert effects live :
  (∀ e, e ∈ effects → ∀ l, applyTimer l e = l) →
  timersAfter effects live = live.
Proof.
  revert live. induction effects as [|e effects IH]; intros live Hall; [done|].
  simpl. unfold timersAfter in IH. rewrite (Hall e) by apply list_elem_of_here.
  apply IH. intros e' He'. by apply Hall, list_elem_of_further.
Qed.

Lemma reconfigure_inert s b live :
  timersAfter (reconfigure s b).2 live = live.
Proof.
  apply timersAfter_inert. unfold reconfigure, updateSettings.
  case_bool_decide; simpl; intros e He;
    [apply list_elem_of_singleton in He as ->; done|by apply elem_of_nil in He].
Qed.

Lemma updateBadge_inert s live : timersAfter (updateBadge s) live = live.
Proof. unfold updateBadge. by case_match. Qed.

Lemma detectCompletions_inert s b live :
  timersAfter (detectCompletions s b).2 live = live.
Proof.
  apply timersAfter_inert. unfold detectCompletions, completionNotifications.
  repeat case_match; simpl; intros e He; try (by apply elem_of_nil in He).
  apply list_elem_of_In, in_map_iff in He as (i & <- & _). done.
Qed.

Lemma resetInterval_TimerKept s b live :
  TimerKept b live →
  TimerKept (resetInterval s b).1 (timersAfter (resetInterval s b).2 live).
Proof.
  unfold TimerKept, resetInterval. intros Hkept.
  case_bool_decide as Hne; [|done].
  assert (delete_kept :
            match notificationInterval b with
            | Some timer => delete timer live
            | None => live
            end = ∅).
  { destruct (lastNotificationSettings b) as [n|]; [|by case_match; subst;
                                                      rewrite ?delete_empty].
    destruct (enableCompletionNotifications n).
    - destruct Hkept as (timer & -> & ->). apply delete_singleton_eq.
    - subst. case_match; by rewrite ?delete_empty. }
  destruct (enableCompletionNotifications (notifications (settings s))) eqn:En;
    simpl; rewrite ?En.
  - exists (nextTimer b). split; [done|].
    destruct (notificationInterval b); simpl;
      rewrite delete_kept; apply insert_empty.
  - by destruct (notificationInterval b).
Qed.

Lemma listener_TimerKept s b live :
  TimerKept b live →
  TimerKept (listener s b).1 (timersAfter (listener s b).2 live).
Proof.
  intros Hkept. rewrite listener_eq. simpl.
  set (b1 := (reconfigure s b).1).
  set (b2 := (resetInterval s b1).1).
  rewrite !timersAfter_app, reconfigure_inert, updateBadge_inert,
    detectCompletions_inert.
  destruct (detectCompletions_keeps s (cacheFeedbackFlag s b2))
    as (Hlast & Hint & _).
  assert (TimerKept b1 live) as Hb1.
  { unfold TimerKept, b1.
    by destruct (reconfigure_keeps s b) as (_ & -> & ->). }
  apply (resetInterval_TimerKept s) in Hb1. fold b2 in Hb1.
  unfold TimerKept in *. by rewrite Hlast, Hint.
Qed.

Lemma listen_effects_cons s rest b :
  (listen (s :: rest) b).2
  = (listener s b).2 :: (listen rest (listener s b).1).2.
Proof.
  simpl. destruct (listener s b) as [b' e]. simpl.
  by destruct (listen rest b').
Qed.

Lemma listen_TimerKept snapshots b live :
  TimerKept b live →
  TimerKept (listen snapshots b).1
    (timersAfter (concat (listen snapshots b).2) live).
Proof.
  revert b live. induction snapshots as [|s rest IH]; intros b live Hkept;
    [done|].
  rewrite listen_cons, listen_effects_cons. simpl.
  rewrite timersAfter_app. by apply IH, listener_TimerKept.
Qed.

(** X11.  After any snapshots the platform runs at most one polling
    timer of the script: none when the latest snapshot has completion
    notifications off, and otherwise exactly the one whose handle the
    script holds, with a period of the latest polling interval in
    seconds times 1000.  Timers of earlier settings never stay behind. *)
Theorem polling_timer_follows_settings earlier s :
  let r := listen (earlier ++ [s]) started in
  let live := timersAfter (concat r.2) ∅ in
  let n := notifications (settings s) in
  if enableCompletionNotifications n then
    ∃ timer, notificationInterval r.1 = Some timer
      ∧ live = {[ timer := (completionPollingInterval n * 1000)%Z ]}
  else live = ∅.
Proof.
  intros r live n.
  assert (TimerKept started ∅) as Hkept by done.
  apply (listen_TimerKept (earlier ++ [s])) in Hkept. fold r live in Hkept.
  unfold TimerKept in Hkept.
  assert (lastNotificationSettings r.1 = Some n) as Hlast.
  { subst r. rewrite listen_last.
    by destruct (listener_settles s (listen earlier started).1) as (_ & -> & _). }
  by rewrite Hlast in Hkept.
Qed.

(** *** From one snapshot to the next *)

(** X12.  After a snapshot that passed the guard, the next snapshot that
    passes it notifies, when completion notifications are on, exactly the
    finished or seeding tasks whose id was not finished or seeding in the
    previous snapshot, whatever the settings of the previous snapshot
    were; if every such task was already finished then, nothing is
    notified.  Switching the notifications on causes no burst. *)
Theorem no_burst_after_baseline s1 s2 b :
  fetchedSinceStart s1 = true →
  fetchedSinceStart s2 = true →
  NoDup (List.map id (tasks s2)) →
  let seen : gset string := list_to_set (updatedFinishedTaskIds s1) in
  let fresh :=
    List.filter (λ t, negb (bool_decide (id t ∈ seen)))
      (List.filter isFinished (tasks s2)) in
  notified (listener s2 (listener s1 b).1).2
  = (if enableCompletionNotifications (notifications (settings s2)) then
       List.map (λ t, (title t, getMessage "Download_finished")) fresh
     else [])
  ∧ ((∀ t, t ∈ tasks s2 → isFinished t = true → id t ∈ seen) →
     notified (listener s2 (listener s1 b).1).2 = []).
Proof.
  intros Hg1 Hg2 Hnd seen fresh.
  destruct (listener_settles s1 b) as (_ & _ & _ & Hfin).
  specialize (Hfin Hg1). fold seen in Hfin.
  destruct (listener_completions s2 (listener s1 b).1) as (b3 & Hb3 & _ & ->).
  rewrite Hfin in Hb3.
  unfold detectCompletions. rewrite Hg2. simpl.
  unfold completionNotifications. rewrite Hb3.
  assert (notified
            (List.map
               (λ i, notify (titleOf s2 i) (getMessage "Download_finished")
                       None)
               (newlyFinished s2 seen))
          = List.map (λ t, (title t, getMessage "Download_finished")) fresh)
    as Hnew.
  { unfold newlyFinished, updatedFinishedTaskIds.
    rewrite filter_map_swap, List.map_map. apply notified_titles; [done|].
    intros x Hx. apply list_elem_of_In, filter_In in Hx as [Hx _].
    apply filter_In in Hx as [Hx _]. by apply list_elem_of_In. }
  split.
  - by destruct (enableCompletionNotifications _).
  - intros Hall. destruct (enableCompletionNotifications _); [|done].
    rewrite Hnew. subst fresh. rewrite filter_none; [done|].
    intros t [Ht Hf]%list_elem_of_In%filter_In.
    apply negb_false_iff, bool_decide_eq_true, Hall; [|done].
    by apply list_elem_of_In.
Qed.

(** X13.  The downloads a click or an "add-tasks" message starts carry
    the feedback flag of the latest snapshot the listener has seen. *)
Theorem actions_use_latest_feedback_flag s b data flag urls :
  onclick data (listener s b).1 = [addDownloadTasksAndPoll flag urls] →
  flag = enableFeedbackNotifications (notifications (settings s))
  ∧ ∀ added path,
      MessageHandlers.handle (listener s b).1
        (MessageHandlers.add_tasks added path)
      = MessageHandlers.Returns
          (MessageHandlers.addDownloadTasksAndPoll
             (enableFeedbackNotifications (notifications (settings s)))
             added path).
Proof.
  destruct (listener_settles s b) as (_ & _ & Hshow & _).
  intros Hclick. split.
  - rewrite (click_flag _ _ _ _ Hclick). exact Hshow.
  - intros added path. simpl. by rewrite Hshow.
Qed.

End Facts.

(** *** The message handlers *)

Section Handlers.
Context `{PathSelector.ErrorMessages}.
Import PathSelector MessageHandlers.

(** X14.  The handler of "pause-task" sends a pause of the one task of
    the message, that of "resume-task" a resume of that one task, that of
    "delete-tasks" a deletion of the tasks of the message that is not
    forced, and none of them does anything else before the request
    resolves.  When it resolves, each of the three polls the tasks
    exactly if it succeeded, and answers "success" in that case and the
    translated failure otherwise (a connection failure through its own
    translator, an error code as a "DownloadStation.Task" code).  A
    failed command never polls. *)
Theorem command_polls_only_on_success {T : Type} b taskId taskIds
    (response : SynologyResponse T) :
  let outcome :=
    match response with
    | SuccessResponse _ => (success, [pollTasks])
    | Failure failure =>
        (failMessage (errorMessageFromConnectionFailure failure), [])
    | ErrorResponse code =>
        (failMessage (errorMessageFromCode code "DownloadStation.Task"), [])
    end in
  (handle b (pause_task taskId) = Awaits (Pause [taskId])
   ∧ handle_resume (pause_task taskId) response = Some outcome)
  ∧ (handle b (resume_task taskId) = Awaits (Resume [taskId])
     ∧ handle_resume (resume_task taskId) response = Some outcome)
  ∧ (handle b (delete_tasks taskIds) = Awaits (Delete taskIds false)
     ∧ handle_resume (delete_tasks taskIds) response = Some outcome).
Proof. by destruct response. Qed.

End Handlers.

(** *** The properties at concrete inputs *)

Import Samples Scenarios.

Lemma selected_urls_are_trimmed_lines_witness :
  fromAscii "http://a" ∈ selectedUrls (fromAscii "  http://a  ")
  ∧ LF ∉ fromAscii "http://a".
Proof.
  assert (fromAscii "http://a" ∈ selectedUrls (fromAscii "  http://a  "))
    as Hin by (vm_compute; apply list_elem_of_here).
  split; [exact Hin|].
  exact (proj1 (proj2 (selected_urls_are_trimmed_lines _ _ Hin))).
Defined.

(** A and B are seen finished while notifications are off; switched on,
    the next snapshot notifies C alone. *)
Lemma no_burst_after_baseline_witness :
  notified
    (listener (fetched [taskA; taskB; taskC; taskD])
       (listener (quiet [taskA; taskB]) started).1).2
  = [("c.iso", "Download_finished")].
Proof.
  assert (NoDup (List.map id (tasks (fetched [taskA; taskB; taskC; taskD]))))
    as Hnd by (apply (bool_decide_unpack _); vm_compute; exact I).
  assert (fetchedSinceStart (quiet [taskA; taskB]) = true) as Hg1
    by (vm_compute; reflexivity).
  assert (fetchedSinceStart (fetched [taskA; taskB; taskC; taskD]) = true)
    as Hg2 by (vm_compute; reflexivity).
  rewrite (proj1 (no_burst_after_baseline _ _ started Hg1 Hg2 Hnd)).
  vm_compute. reflexivity.
Defined.

Lemma actions_use_latest_feedback_flag_witness :
  onclick onVideo (listener (quiet []) started).1
  = [addDownloadTasksAndPoll false [fromAscii "http://media"]].
Proof.
  assert (onclick onVideo (listener (quiet []) started).1
          = [addDownloadTasksAndPoll
               (showNonErrorNotifications (listener (quiet []) started).1)
               [fromAscii "http://media"]]) as Hclick by reflexivity.
  rewrite Hclick.
  by rewrite (proj1 (actions_use_latest_feedback_flag _ _ _ _ _ Hclick)).
Defined.

Lemma command_polls_only_on_success_witness :
  MessageHandlers.handle started (MessageHandlers.delete_tasks ["dbid_1"; "dbid_2"])
  = MessageHandlers.Awaits (MessageHandlers.Delete ["dbid_1"; "dbid_2"] false)
  ∧ MessageHandlers.handle_resume (MessageHandlers.pause_task "dbid_1")
      (PathSelector.ErrorResponse 405 : PathSelector.SynologyResponse unit)
    = Some (MessageHandlers.failMessage "DownloadStation.Task: request failed",
            [])
  ∧ MessageHandlers.handle_resume (MessageHandlers.resume_task "dbid_1")
      (PathSelector.SuccessResponse tt : PathSelector.SynologyResponse unit)
    = Some (MessageHandlers.success, [MessageHandlers.pollTasks]).
Proof.
  pose proof (command_polls_only_on_success started "dbid_1"
                ["dbid_1"; "dbid_2"]
                (PathSelector.ErrorResponse 405
                 : PathSelector.SynologyResponse unit))
    as (Hpause & _ & Hdelete).
  pose proof (command_polls_only_on_success started "dbid_1" []
                (PathSelector.SuccessResponse tt
                 : PathSelector.SynologyResponse unit))
    as (_ & Hresume & _).
  split; [exact (proj1 Hdelete)|].
  split; [exact (proj2 Hpause)|exact (proj2 Hresume)].
Defined.

Example repeated_snapshot_is_quiet :
  (listener unfetched (listener unfetched started).1).2
  = updateBadge unfetched.
Proof. vm_compute. reflexivity. Qed.

(** Completion notifications go on, the interval changes, they go off:
    one timer, then its successor, then none. *)
Example timer_replaced_then_cleared :
  timersAfter (concat (listen [fetched []] started).2) ∅ = {[ 0 := 60000%Z ]}
  ∧ timersAfter (concat (listen [fetched []; hurried []] started).2) ∅
    = {[ 1 := 5000%Z ]}
  ∧ timersAfter
      (concat (listen [fetched []; hurried []; quiet []] started).2) ∅
    = ∅.
Proof. repeat split; vm_compute; reflexivity. Qed.

End BackgroundLifecycle.
